(** * IMDb ratings analysis: a shallow embedding of [imdb_analysis_complete.py]

    The script loads a table of rated titles into a pandas data frame and
    derives statistics, grouped rollups, token tables and insight labels from
    it.  This development embeds the data frame as a list of rows, the
    analyzer object as a record threaded through a small state-and-error
    monad, and the pandas / numpy / [re] operations the script calls as
    executable functions.

    Conventions of the embedding.
    - A Python [str] is a [string]; its characters are code points below 256.
    - A Python float is a [pyfloat]: [nan], an exact rational, the square
      root of an exact rational, or a rational divided by such a root.  Means,
      deviations and correlations are therefore the exact real values; the
      last-bit rounding of binary64 arithmetic is not represented.
    - A raised Python exception is [Raise e]; nothing in the script catches
      one, so the first exception ends the computation.
    - A regular expression made of literal characters and full stops is
      interpreted; what [re] does with any other is a parameter, the
      [Re.Engine], over which the definitions and theorems range. *)

From Stdlib Require Import List String Ascii Bool Arith ZArith QArith Lia.
From Stdlib Require Import Qabs Qround Qreduction Sorted Permutation.
Import ListNotations.

Open Scope string_scope.
Open Scope Z_scope.

(** ** Exceptions and results *)

Inductive exn : Type :=
| IndexError          (* [.iloc[0]] on an empty Series *)
| ZeroDivisionError   (* [/] on Python ints with a zero divisor *)
| KeyError            (* a column missing from a DataFrame *)
| ValueError          (* [NaT.strftime], [idxmax] of an empty Series *)
| TypeError           (* subscripting or [len] of [None] *)
| AttributeError      (* attribute access on [None] *)
| ReError.            (* [re.error]: a pattern that does not compile *)

Inductive result (A : Type) : Type :=
| Ok (a : A)
| Raise (e : exn).

Arguments Ok {A} a.
Arguments Raise {A} e.

Definition rbind {A B} (r : result A) (k : A -> result B) : result B :=
  match r with
  | Ok a => k a
  | Raise e => Raise e
  end.

Declare Scope result_scope.
Delimit Scope result_scope with result.
Notation "'let*' x ':=' r 'in' k" := (rbind r (fun x => k))
  (at level 10, x pattern, r at level 100, k at level 200) : result_scope.
Open Scope result_scope.

(** [[f(x) for x in xs]] where [f] may raise. *)
Fixpoint mapM {A B} (f : A -> result B) (xs : list A) : result (list B) :=
  match xs with
  | [] => Ok []
  | x :: xs' =>
      let* y := f x in
      let* ys := mapM f xs' in
      Ok (y :: ys)
  end.

(** ** Python strings *)

Module Str.

(** [str.isspace] on one character: the code points below 256 that Python
    treats as whitespace. *)
Definition is_space (c : ascii) : bool :=
  let n := nat_of_ascii c in
  ((9 <=? n) && (n <=? 13) || (28 <=? n) && (n <=? 32)
   || (n =? 133) || (n =? 160))%nat.

Fixpoint lstrip (s : string) : string :=
  match s with
  | EmptyString => EmptyString
  | String c s' => if is_space c then lstrip s' else s
  end.

Fixpoint rstrip (s : string) : string :=
  match s with
  | EmptyString => EmptyString
  | String c s' =>
      match rstrip s' with
      | EmptyString => if is_space c then EmptyString else String c EmptyString
      | r => String c r
      end
  end.

(** [s.strip()] *)
Definition strip (s : string) : string := rstrip (lstrip s).

(** [s.split(sep)] for a one-character separator. *)
Fixpoint split (sep : ascii) (s : string) : list string :=
  match s with
  | EmptyString => [EmptyString]
  | String c s' =>
      if Ascii.eqb c sep then EmptyString :: split sep s'
      else match split sep s' with
           | [] => [String c EmptyString]
           | p :: ps => String c p :: ps
           end
  end.

(** [sep.join(parts)] *)
Fixpoint join (sep : string) (parts : list string) : string :=
  match parts with
  | [] => EmptyString
  | [p] => p
  | p :: ps => p ++ sep ++ join sep ps
  end.

(** Python truthiness of a [str]: [bool(s)]. *)
Definition truthy (s : string) : bool :=
  match s with
  | EmptyString => false
  | _ => true
  end.

Fixpoint count_char (c : ascii) (s : string) : nat :=
  match s with
  | EmptyString => O
  | String d s' => (if Ascii.eqb d c then 1 else 0) + count_char c s'
  end.

(** [sub in s] *)
Fixpoint contains (sub s : string) : bool :=
  prefix sub s ||
  match s with
  | EmptyString => false
  | String _ s' => contains sub s'
  end.

(** A string is trimmed when it neither starts nor ends with whitespace. *)
Definition trimmed (t : string) : Prop :=
  (forall c rest, t = String c rest -> is_space c = false) /\
  (forall c front, t = front ++ String c EmptyString -> is_space c = false).

End Str.

(** ** Regular expressions

    [Series.str.contains(pat, na=False)] compiles [pat] as a regular
    expression and tests [re.search].  Tokens cut from the genre and director
    columns are names; the only metacharacter they carry in practice is the
    full stop.  Patterns made of literal characters and ['.'], the fragment
    that [supported] recognises, are interpreted here as [re] does (['.']
    matches any character but a newline).  What [re] makes of a pattern
    holding another metacharacter is not interpreted: it is left to an
    [Engine], which says whether such a pattern compiles and, when it does,
    whether it is found in a text.  Every definition that reaches
    [str.contains] takes the engine as a parameter. *)

Module Re.

Definition is_meta (c : ascii) : bool :=
  existsb (Ascii.eqb c)
    (list_ascii_of_string "\^$*+?{}[]|()").

Fixpoint supported (pat : string) : bool :=
  match pat with
  | EmptyString => true
  | String c pat' => negb (is_meta c) && supported pat'
  end.

(** A pattern without any metacharacter, the full stop included. *)
Fixpoint literal (pat : string) : bool :=
  match pat with
  | EmptyString => true
  | String c pat' =>
      negb (is_meta c) && negb (Ascii.eqb c "."%char) && literal pat'
  end.

Definition newline : ascii := ascii_of_nat 10.

Definition match_char (p c : ascii) : bool :=
  if Ascii.eqb p "."%char then negb (Ascii.eqb c newline) else Ascii.eqb p c.

(** [re.match(pat, s)] succeeds. *)
Fixpoint match_here (pat s : string) : bool :=
  match pat, s with
  | EmptyString, _ => true
  | String _ _, EmptyString => false
  | String p pat', String c s' => match_char p c && match_here pat' s'
  end.

(** [re.search(pat, s) is not None] for a supported pattern. *)
Fixpoint search (pat s : string) : bool :=
  match_here pat s ||
  match s with
  | EmptyString => false
  | String _ s' => search pat s'
  end.

(** [re] on the patterns outside the fragment. *)
Class Engine : Type := mkengine {
  compiles : string -> bool;          (* [re.compile(pat)] returns *)
  found : string -> string -> bool    (* [re.search(pat, s) is not None] *)
}.

End Re.

(** ** Numbers *)

(** A Python float, kept exact. *)
Inductive pyfloat : Type :=
| nan
| rat (q : Q)            (* the rational [q] *)
| sqrt_of (q : Q)        (* the non-negative square root of [q] *)
| div_sqrt (c d : Q).    (* [c] divided by the square root of [d], [d > 0] *)

Definition qltb (x y : Q) : bool := negb (Qle_bool y x).

(** [abs(x) > t] for a threshold [t >= 0]; every comparison with [nan] is
    [False]. *)
Definition abs_gtb (x : pyfloat) (t : Q) : bool :=
  match x with
  | nan => false
  | rat q => qltb t (Qabs q)
  | sqrt_of q => qltb (t * t)%Q q
  | div_sqrt c d => qltb (t * t * d)%Q (c * c)%Q
  end.

(** [x > y] on floats that are rationals or [nan]. *)
Definition rat_gtb (x y : pyfloat) : bool :=
  match x, y with
  | rat a, rat b => qltb b a
  | _, _ => false
  end.

Definition len {A} (l : list A) : Z := Z.of_nat (List.length l).

Definition sumZ (xs : list Z) : Z := fold_right Z.add 0 xs.
Definition sumQ (xs : list Q) : Q := fold_right Qplus 0%Q xs.

(** [Series.dropna()] *)
Fixpoint dropna {A} (xs : list (option A)) : list A :=
  match xs with
  | [] => []
  | Some x :: xs' => x :: dropna xs'
  | None :: xs' => dropna xs'
  end.

(** [Series.mean()]: the mean of the values present, [nan] when there is
    none. *)
Definition meanQ (xs : list Q) : pyfloat :=
  match xs with
  | [] => nan
  | _ => rat (Qred (sumQ xs / inject_Z (len xs))%Q)
  end.

Definition mean (xs : list Z) : pyfloat := meanQ (map inject_Z xs).

Definition mean_opt (xs : list (option Q)) : pyfloat := meanQ (dropna xs).

(** [Series.std()], the sample deviation ([ddof=1]): [nan] below two
    values, else the root of [(n * sum x^2 - (sum x)^2) / (n * (n - 1))]. *)
Definition std (xs : list Z) : pyfloat :=
  let n := len xs in
  if n <? 2 then nan
  else
    let s1 := sumZ xs in
    let s2 := sumZ (map (fun x => x * x) xs) in
    sqrt_of (Qred (inject_Z (n * s2 - s1 * s1) / inject_Z (n * (n - 1)))%Q).

(** The pairs [Series.corr] keeps: rows where both values are present. *)
Fixpoint valid_pairs (xs : list Z) (ys : list (option Q)) : list (Q * Q) :=
  match xs, ys with
  | x :: xs', Some y :: ys' => (inject_Z x, y) :: valid_pairs xs' ys'
  | _ :: xs', None :: ys' => valid_pairs xs' ys'
  | _, _ => []
  end.

(** Pearson's coefficient of the kept pairs, as [numpy.corrcoef] gives it:
    with [n] pairs, [n * sum xy - sum x * sum y] over the root of
    [(n * sum x^2 - (sum x)^2) * (n * sum y^2 - (sum y)^2)], and [nan] when
    that product is zero (a single pair, or a constant column). *)
Definition pearson (ps : list (Q * Q)) : pyfloat :=
  let n := inject_Z (len ps) in
  let sx := sumQ (map fst ps) in
  let sy := sumQ (map snd ps) in
  let sxx := sumQ (map (fun p => fst p * fst p)%Q ps) in
  let syy := sumQ (map (fun p => snd p * snd p)%Q ps) in
  let sxy := sumQ (map (fun p => fst p * snd p)%Q ps) in
  let d := Qred ((n * sxx - sx * sx) * (n * syy - sy * sy))%Q in
  if Qeq_bool d 0%Q then nan
  else div_sqrt (Qred (n * sxy - sx * sy)%Q) d.

(** [a.corr(b)] with the default [min_periods=1]. *)
Definition corr (xs : list Z) (ys : list (option Q)) : pyfloat :=
  let ps := valid_pairs xs ys in
  if len ps <? 1 then nan else pearson ps.

(** Rounding to the nearest integer, ties to the even one. *)
Definition rint (q : Q) : Z :=
  let fl := Qfloor q in
  let twice := Qfloor (2 * q)%Q in
  if Qeq_bool (inject_Z twice) (2 * q)%Q && Z.odd twice
  then (if Z.even fl then fl else fl + 1)
  else (twice + 1) / 2.

(** The nearest integer to the square root of [q >= 0], ties to even. *)
Definition rint_sqrt (q : Q) : Z :=
  let m := Z.sqrt (Qfloor (4 * q)%Q) in
  if Qeq_bool (inject_Z (m * m)) (4 * q)%Q && Z.odd m
  then (let k := m / 2 in if Z.even k then k else k + 1)
  else (m + 1) / 2.

(** [x.round(2)], on the exact value: a mean lying exactly halfway between
    two hundredths goes to the even one, whereas numpy rounds the binary64
    number nearest to that mean, which may lie on either side of the tie. *)
Definition round2 (x : pyfloat) : pyfloat :=
  match x with
  | nan => nan
  | rat q => rat (Qred (inject_Z (rint (100 * q)%Q) / 100)%Q)
  | sqrt_of q => rat (Qred (inject_Z (rint_sqrt (10000 * q)%Q) / 100)%Q)
  | div_sqrt c d => div_sqrt c d
  end.

(** [Series.value_counts().sort_index()]: the distinct values in ascending
    order, each with its number of occurrences. *)
Fixpoint vc_add (x : Z) (l : list (Z * Z)) : list (Z * Z) :=
  match l with
  | [] => [(x, 1)]
  | (k, n) :: l' =>
      if x <? k then (x, 1) :: l
      else if x =? k then (k, n + 1) :: l'
      else (k, n) :: vc_add x l'
  end.

Definition value_counts_sort_index (xs : list Z) : list (Z * Z) :=
  fold_left (fun l x => vc_add x l) xs [].

(** [sorted(Series.unique())] *)
Definition sorted_unique (xs : list Z) : list Z :=
  map fst (value_counts_sort_index xs).

(** [Series.idxmax()]: the label of the first greatest value. *)
Fixpoint idxmax {K V} (gtb : V -> V -> bool) (l : list (K * V))
  : option (K * V) :=
  match l with
  | [] => None
  | p :: l' =>
      match idxmax gtb l' with
      | Some q => if gtb (snd q) (snd p) then Some q else Some p
      | None => Some p
      end
  end.

(** [Series.mode().iloc[0]]: the smallest of the most frequent values. *)
Definition mode_first (xs : list Z) : result Z :=
  match idxmax Z.gtb (value_counts_sort_index xs) with
  | Some (v, _) => Ok v
  | None => Raise IndexError
  end.

(** [a / b * 100] on Python ints. *)
Definition percent (a b : Z) : result Q :=
  if b =? 0 then Raise ZeroDivisionError
  else Ok (Qred (inject_Z (a * 100) / inject_Z b)%Q).

(** ** Dates *)

Record date : Type := mkdate { year : Z; month : Z; day : Z }.

Definition date_leb (a b : date) : bool :=
  (year a <? year b)
  || (year a =? year b)
     && ((month a <? month b) || (month a =? month b) && (day a <=? day b)).

(** [Series.max()] of a datetime column; [None] is [NaT]. *)
Fixpoint max_date (ds : list date) : option date :=
  match ds with
  | [] => None
  | d :: ds' =>
      match max_date ds' with
      | Some m => if date_leb d m then Some m else Some d
      | None => Some d
      end
  end.

(** ** The data frame *)

Module Csv.

(** One line of the export, as [pd.read_csv] and [pd.to_datetime] deliver
    it: an absent cell is [None]. *)
Record title : Type := mktitle {
  Title_Type : string;
  Your_Rating : Z;
  IMDb_Rating : option Q;
  Year : option Z;
  Date_Rated : date;
  Release_Date : option date;
  Genres : option string;
  Directors : option string
}.

End Csv.

(** A row of [self.df] after [load_data]: the columns of the export and the
    two derived columns. *)
Record row : Type := mkrow {
  Title_Type : string;
  Your_Rating : Z;
  IMDb_Rating : option Q;
  Year : option Z;
  Date_Rated : date;
  Release_Date : option date;
  Genres : option string;
  Directors : option string;
  Rating_Year : Z;
  Content_Age : option Z
}.

Inductive age_group : Type :=
| Very_Recent    (* 'Very Recent (0-5y)' *)
| Recent         (* 'Recent (6-15y)' *)
| Older          (* 'Older (16-30y)' *)
| Classic        (* 'Classic (31-50y)' *)
| Very_Classic.  (* 'Very Classic (50y+)' *)

Definition age_group_eqb (a b : age_group) : bool :=
  match a, b with
  | Very_Recent, Very_Recent | Recent, Recent | Older, Older
  | Classic, Classic | Very_Classic, Very_Classic => true
  | _, _ => false
  end.

Definition age_bins : list Z := [-1; 5; 15; 30; 50; 100].

Definition age_labels : list age_group :=
  [Very_Recent; Recent; Older; Classic; Very_Classic].

(** [pd.cut(x, bins, labels)] on one value, with the default [right=True]:
    the label of the interval [(lo, hi]] that holds [x]; [None] (a missing
    category) when no interval does. *)
Fixpoint cut_from {L} (lo : Z) (edges : list Z) (labels : list L) (x : Z)
  : option L :=
  match edges, labels with
  | hi :: edges', l :: labels' =>
      if (lo <? x) && (x <=? hi) then Some l else cut_from hi edges' labels' x
  | _, _ => None
  end.

Definition cut {L} (bins : list Z) (labels : list L) (x : option Z)
  : option L :=
  match x, bins with
  | Some v, lo :: edges => cut_from lo edges labels v
  | _, _ => None
  end.

(** ** Tokens of a multi-value column *)

(** The body of the loops of [analyze_directors] and [analyze_genres] over
    [column.fillna('')]: an absent cell reads as the empty string, a falsy
    cell gives nothing, any other cell its comma-separated pieces, each
    stripped. *)
Definition field_tokens (cell : option string) : list string :=
  let s := match cell with Some s => s | None => EmptyString end in
  if Str.truthy s then map Str.strip (Str.split ","%char s) else [].

Definition token_list (column : list (option string)) : list string :=
  flat_map field_tokens column.

(** [collections.Counter]: keys in the order of their first occurrence. *)
Fixpoint counter_add (t : string) (c : list (string * Z))
  : list (string * Z) :=
  match c with
  | [] => [(t, 1)]
  | (k, n) :: c' =>
      if String.eqb k t then (k, n + 1) :: c' else (k, n) :: counter_add t c'
  end.

Definition Counter (l : list string) : list (string * Z) :=
  fold_left (fun c t => counter_add t c) l [].

(** The count a counter holds for a token. *)
Fixpoint count_of (t : string) (c : list (string * Z)) : Z :=
  match c with
  | [] => 0
  | (k, n) :: c' => (if String.eqb k t then n else 0) + count_of t c'
  end.

(** The number of occurrences of a token in a list. *)
Fixpoint occurrences (t : string) (l : list string) : Z :=
  match l with
  | [] => 0
  | u :: l' => (if String.eqb u t then 1 else 0) + occurrences t l'
  end.

(** The order of a ranking: the earlier entry has the greater or equal
    count. *)
Definition ge_count (a b : string * Z) : Prop := snd b <= snd a.

(** Insertion before the first entry whose count is not greater: a stable
    sort by descending count when folded from the right. *)
Fixpoint insert_desc (x : string * Z) (l : list (string * Z))
  : list (string * Z) :=
  match l with
  | [] => [x]
  | y :: l' => if snd x <? snd y then y :: insert_desc x l' else x :: l
  end.

(** [Counter.most_common(n)]: by descending count, equal counts in the
    order of first occurrence. *)
Definition most_common (n : nat) (c : list (string * Z))
  : list (string * Z) :=
  firstn n (fold_right insert_desc [] c).

(** One element of the mask [df[column].str.contains(pat, na=False)], for
    a pattern of literal characters and full stops: an absent cell gives
    [False]. *)
Definition matches (column : row -> option string) (pat : string) (r : row)
  : bool :=
  match column r with
  | Some s => Re.search pat s
  | None => false
  end.

(** The same element for any pattern that compiles. *)
Definition picks `{Re.Engine} (column : row -> option string) (pat : string)
  (r : row) : bool :=
  match column r with
  | Some s => if Re.supported pat then Re.search pat s else Re.found pat s
  | None => false
  end.

(** [df[df[column].str.contains(pat, na=False)]]: the pattern is compiled
    once, before any cell is looked at. *)
Definition select_contains `{Re.Engine} (column : row -> option string)
  (pat : string) (rows : list row) : result (list row) :=
  if Re.supported pat || Re.compiles pat
  then Ok (filter (picks column pat) rows)
  else Raise ReError.

(** The rows whose cell lists the token: one of the cell's tokens is
    it. *)
Definition lists (column : row -> option string) (t : string) (r : row)
  : bool :=
  existsb (String.eqb t) (field_tokens (column r)).

(** ** The analyzer object *)

Record stats : Type := mkstats {
  total_entries : Z;
  movies : Z;
  tv_series : Z;
  tv_episodes : Z;
  avg_rating : pyfloat;
  most_common_rating : Z;
  imdb_correlation : pyfloat
}.

Record yearly_row : Type := mkyearly {
  Rating_Year_index : Z;
  Count : Z;
  Avg_Your_Rating : pyfloat;
  Std_Your_Rating : pyfloat;
  Avg_IMDb_Rating : pyfloat;
  Avg_Content_Year : pyfloat;
  Avg_Content_Age : pyfloat
}.

Record director_row : Type := mkdirector {
  Director : string;
  Director_Count : Z;
  Avg_Rating : pyfloat;
  Std_Rating : pyfloat;
  Latest_Work : date
}.

Record genre_line : Type := mkgenre {
  Genre : string;
  Genre_Count : Z;
  Genre_Percentage : Q;
  Genre_Avg_Rating : pyfloat
}.

Record age_row : Type := mkage {
  Age_Group_index : age_group;
  Age_Count : Z;
  Age_Mean : pyfloat
}.

Record insights : Type := mkinsights {
  insight_avg_rating : pyfloat;
  insight_correlation : pyfloat;
  insight_generosity : Q;
  insight_style : string;
  peak_volume_year : Z;
  peak_quality_year : Z
}.

(** The attributes of an [IMDbAnalyzer]; [None] is Python's [None].  The
    column [Age_Group] that [content_age_analysis] adds to [self.df] is kept
    beside the rows. *)
Record IMDbAnalyzer : Type := mkanalyzer {
  df : option (list row);
  df_Age_Group : option (list (option age_group));
  yearly_stats : option (list yearly_row);
  director_analysis : option (list director_row)
}.

(** [IMDbAnalyzer(csv_path)] *)
Definition init : IMDbAnalyzer := mkanalyzer None None None None.

(** A method: it reads and updates [self] and returns or raises. *)
Definition method (A : Type) : Type :=
  IMDbAnalyzer -> result (A * IMDbAnalyzer).

(** [self.df[...]] and [len(self.df)]: neither is defined on [None]. *)
Definition get_df (self : IMDbAnalyzer) : result (list row) :=
  match df self with
  | Some rows => Ok rows
  | None => Raise TypeError
  end.

Definition count_where (p : row -> bool) (rows : list row) : Z :=
  len (filter p rows).

(** *** [load_data]

    The table is the export as read and parsed; [now] is the reading of
    [datetime.now()], of which the script uses the year alone. *)
Definition load_row (now : date) (t : Csv.title) : row :=
  mkrow (Csv.Title_Type t) (Csv.Your_Rating t) (Csv.IMDb_Rating t)
    (Csv.Year t) (Csv.Date_Rated t) (Csv.Release_Date t) (Csv.Genres t)
    (Csv.Directors t)
    (year (Csv.Date_Rated t))
    (option_map (fun y => year now - y) (Csv.Year t)).

Definition load_data (table : list Csv.title) (now : date) : method unit :=
  fun self =>
    Ok (tt, mkanalyzer (Some (map (load_row now) table)) None
              (yearly_stats self) (director_analysis self)).

(** *** [basic_statistics] *)
Definition is_type (ty : string) (r : row) : bool :=
  String.eqb (Title_Type r) ty.

Definition basic_statistics : method stats :=
  fun self =>
    let* rows := get_df self in
    let total := len rows in
    let n_movies := count_where (is_type "Movie") rows in
    let n_series := count_where (is_type "TV Series") rows in
    let n_episodes := count_where (is_type "TV Episode") rows in
    let avg := mean (map Your_Rating rows) in
    let* common := mode_first (map Your_Rating rows) in
    let r := corr (map Your_Rating rows) (map IMDb_Rating rows) in
    let st := mkstats total n_movies n_series n_episodes avg common r in
    (* the percentages of the printed summary *)
    let* _ := percent (movies st) (total_entries st) in
    let* _ := percent (tv_series st) (total_entries st) in
    let* _ := percent (tv_episodes st) (total_entries st) in
    Ok (st, self).


(** The three title types the summary counts. *)
Definition counted_type (r : row) : bool :=
  is_type "Movie" r || is_type "TV Series" r || is_type "TV Episode" r.

(** *** [yearly_evolution] *)
Definition inject_opt (x : option Z) : option Q := option_map inject_Z x.

Definition yearly_group (rows : list row) (y : Z) : list row :=
  filter (fun r => Rating_Year r =? y) rows.

Definition yearly_agg (rows : list row) (y : Z) : yearly_row :=
  let g := yearly_group rows y in
  mkyearly y
    (len g)
    (round2 (mean (map Your_Rating g)))
    (round2 (std (map Your_Rating g)))
    (round2 (mean_opt (map IMDb_Rating g)))
    (round2 (mean_opt (map (fun r => inject_opt (Year r)) g)))
    (round2 (mean_opt (map (fun r => inject_opt (Content_Age r)) g))).

(** [df.groupby('Rating Year').agg(...).round(2)]: one row per distinct
    rating year, in ascending order. *)
Definition yearly_table (rows : list row) : list yearly_row :=
  map (yearly_agg rows) (sorted_unique (map Rating_Year rows)).

Definition yearly_evolution : method (list yearly_row) :=
  fun self =>
    let* rows := match df self with
                 | Some rows => Ok rows
                 | None => Raise AttributeError   (* [None.groupby] *)
                 end in
    let table := yearly_table rows in
    Ok (table, mkanalyzer (df self) (df_Age_Group self) (Some table)
                 (director_analysis self)).

(** *** [analyze_directors] *)
Definition top_directors (rows : list row) : list (string * Z) :=
  most_common 15 (Counter (token_list (map Directors rows))).

(** The guard of the loop: [if director and count >= 5]. *)
Definition director_guard (entry : string * Z) : bool :=
  Str.truthy (fst entry) && (5 <=? snd entry).

(** The body of the loop for an entry that passes the guard. *)
Definition director_entry `{Re.Engine} (rows : list row)
  (entry : string * Z)
  : result director_row :=
  let (director, count) := entry in
  let* director_works := select_contains Directors director rows in
  let avg := mean (map Your_Rating director_works) in
  let sd := std (map Your_Rating director_works) in
  let* latest :=
    match max_date (map Date_Rated director_works) with
    | Some d => Ok d
    | None => Raise ValueError       (* [NaT.strftime] *)
    end in
  Ok (mkdirector director count avg sd latest).

Definition director_table `{Re.Engine} (rows : list row)
  : result (list director_row) :=
  mapM (director_entry rows) (filter director_guard (top_directors rows)).

Definition analyze_directors `{Re.Engine} : method (list director_row) :=
  fun self =>
    let* rows := get_df self in
    let* table := director_table rows in
    (* [pd.DataFrame([])] has no column to sort by *)
    let* _ := match table with
              | [] => Raise KeyError
              | _ => Ok tt
              end in
    Ok (table, mkanalyzer (df self) (df_Age_Group self) (yearly_stats self)
                 (Some table)).

(** *** [analyze_genres] *)
Definition top_genres (rows : list row) : list (string * Z) :=
  most_common 15 (Counter (token_list (map Genres rows))).

(** The guard of the loop: [if genre]. *)
Definition genre_guard (entry : string * Z) : bool := Str.truthy (fst entry).

Definition genre_entry `{Re.Engine} (rows : list row) (entry : string * Z)
  : result genre_line :=
  let (genre, count) := entry in
  let* works := select_contains Genres genre rows in
  let avg := mean (map Your_Rating works) in
  let* percentage := percent count (len rows) in
  Ok (mkgenre genre count percentage avg).

(** The lines the loop prints, one per entry that passes the guard. *)
Definition genre_lines `{Re.Engine} (rows : list row)
  : result (list genre_line) :=
  mapM (genre_entry rows) (filter genre_guard (top_genres rows)).

Definition analyze_genres `{Re.Engine} : method (list (string * Z)) :=
  fun self =>
    let* rows := get_df self in
    let* _ := genre_lines rows in
    Ok (top_genres rows, self).

(** *** [rating_patterns] *)
Definition rating_dist (rows : list row) : list (Z * Z) :=
  value_counts_sort_index (map Your_Rating rows).

Record rating_report : Type := mkreport {
  dist_percentages : list (Z * Z * Q);
  high_ratings : Z;
  high_percentage : Q;
  low_ratings : Z;
  low_percentage : Q
}.

(** The numbers the method prints.  The loop runs only when the frame has
    a row; the two summary lines divide whatever the frame holds. *)
Definition rating_summary (rows : list row) : result rating_report :=
  let* lines :=
    mapM (fun rc : Z * Z =>
            let* p := percent (snd rc) (len rows) in Ok (rc, p))
         (rating_dist rows) in
  let high := count_where (fun r => 8 <=? Your_Rating r) rows in
  let low := count_where (fun r => Your_Rating r <=? 5) rows in
  let* hp := percent high (len rows) in
  let* lp := percent low (len rows) in
  Ok (mkreport lines high hp low lp).

Definition rating_patterns : method (list (Z * Z)) :=
  fun self =>
    let* rows := get_df self in
    let* _ := rating_summary rows in
    Ok (rating_dist rows, self).

(** *** [content_age_analysis] *)
Definition age_group_of (r : row) : option age_group :=
  cut age_bins age_labels (Content_Age r).

Definition in_group (g : age_group) (r : row) : bool :=
  match age_group_of r with
  | Some g' => age_group_eqb g g'
  | None => false
  end.

(** The interval [(lo, hi]] of each category, as the bins pair them with
    the labels. *)
Definition bucket_bounds (g : age_group) : Z * Z :=
  match g with
  | Very_Recent => (-1, 5)
  | Recent => (5, 15)
  | Older => (15, 30)
  | Classic => (30, 50)
  | Very_Classic => (50, 100)
  end.

Definition in_bounds (g : age_group) (a : Z) : bool :=
  (fst (bucket_bounds g) <? a) && (a <=? snd (bucket_bounds g)).

Definition age_in (g : age_group) (r : row) : bool :=
  match Content_Age r with
  | Some a => in_bounds g a
  | None => false
  end.

(** [df.groupby('Age_Group')['Your Rating'].agg(['count', 'mean']).round(2)]
    over the five categories of the column; a row whose [Age_Group] is
    missing belongs to no group. *)
Definition age_table (rows : list row) : list age_row :=
  map (fun g =>
         let members := filter (in_group g) rows in
         mkage g (len members) (round2 (mean (map Your_Rating members))))
      age_labels.

Definition content_age_analysis : method (list age_row) :=
  fun self =>
    let* rows := get_df self in
    Ok (age_table rows,
        mkanalyzer (df self) (Some (map age_group_of rows))
          (yearly_stats self) (director_analysis self)).

(** *** [generate_insights] *)
Definition alignment_label (r : pyfloat) : string :=
  if abs_gtb r (7 # 10) then "Strong"
  else if abs_gtb r (4 # 10) then "Moderate"
  else "Weak".

Definition generosity_style (generous_percentage : Q) : string :=
  if qltb 60 generous_percentage then "Very generous"
  else if qltb 40 generous_percentage then "Moderately generous"
  else "Selective".

Definition is_nan (x : pyfloat) : bool :=
  match x with
  | nan => true
  | _ => false
  end.

Definition generate_insights : method insights :=
  fun self =>
    let* (st, self) := basic_statistics self in
    let* rows := get_df self in
    let avg := avg_rating st in
    let r := imdb_correlation st in
    let* generous_percentage :=
      percent (count_where (fun r => 7 <=? Your_Rating r) rows) (len rows) in
    let _ := alignment_label r in
    let generosity := generosity_style generous_percentage in
    let* ys := match yearly_stats self with
               | Some ys => Ok ys
               | None => Raise TypeError
               end in
    let* volume :=
      match idxmax Z.gtb (map (fun y => (Rating_Year_index y, Count y)) ys)
      with
      | Some (y, _) => Ok y
      | None => Raise ValueError
      end in
    let* quality :=
      match idxmax rat_gtb
              (filter (fun p => negb (is_nan (snd p)))
                 (map (fun y => (Rating_Year_index y, Avg_Your_Rating y)) ys))
      with
      | Some (y, _) => Ok y
      | None => Raise ValueError
      end in
    Ok (mkinsights avg r generous_percentage generosity volume quality, self).

(** *** [create_visualizations]: the series prepared for the panels

    Drawing belongs to matplotlib; what the method computes itself are the
    per-year shares of panels 6 and 8 and the running total of panel 7.
    The method reads [self.yearly_stats] first (line 190), then the frame
    (line 215). *)
Definition watchlist : list string :=
  ["Drama"; "Action"; "Sci-Fi"; "Comedy"; "Thriller"].

(** [(a / b) * 100 if b > 0 else 0] *)
Definition guarded_percent (a b : Z) : result Q :=
  if 0 <? b then percent a b else Ok 0%Q.

(** [column.str]: pandas offers the accessor on a column of strings.  A
    column that the export leaves empty on every row is read as a column of
    floats, and the accessor raises [AttributeError].  (The two token
    analyses reach [.str] only with a token cut from the column, which then
    holds a string.) *)
Definition str_accessor (column : row -> option string) (rows : list row)
  : result unit :=
  if existsb (fun r => match column r with
                       | Some _ => true
                       | None => false
                       end) rows
  then Ok tt
  else Raise AttributeError.

Definition genre_by_year `{Re.Engine} (rows : list row) (genre : string)
  : result (list Q) :=
  mapM (fun y =>
          let year_data := yearly_group rows y in
          let* _ := str_accessor Genres rows in
          let* hits := select_contains Genres genre year_data in
          guarded_percent (len hits) (len year_data))
       (sorted_unique (map Rating_Year rows)).

Definition generosity_by_year (rows : list row) : result (list Q) :=
  mapM (fun y =>
          let year_data := yearly_group rows y in
          guarded_percent
            (count_where (fun r => 8 <=? Your_Rating r) year_data)
            (len year_data))
       (sorted_unique (map Rating_Year rows)).

Fixpoint cumsum_from (acc : Z) (xs : list Z) : list Z :=
  match xs with
  | [] => []
  | x :: xs' => (acc + x) :: cumsum_from (acc + x) xs'
  end.

Record charts : Type := mkcharts {
  chart_years : list Z;
  chart_genre_by_year : list (string * list Q);
  chart_cumulative : list Z;
  chart_generosity : list Q
}.

Definition create_visualizations `{Re.Engine} : method charts :=
  fun self =>
    let* ys := match yearly_stats self with
               | Some ys => Ok ys
               | None => Raise AttributeError
               end in
    let* rows := get_df self in
    let* by_genre :=
      mapM (fun g => let* ps := genre_by_year rows g in Ok (g, ps))
           watchlist in
    let* generosity := generosity_by_year rows in
    Ok (mkcharts (sorted_unique (map Rating_Year rows)) by_genre
          (cumsum_from 0 (map Count ys)) generosity,
        self).

(** *** [run_complete_analysis] *)

(** The dictionary the pipeline returns, with its five keys; the values of
    [rating_patterns] and [content_age_analysis] are bound on the way and
    not returned. *)
Record bundle : Type := mkbundle {
  basic_stats : stats;
  yearly_data : list yearly_row;
  director_data : list director_row;
  genre_data : list (string * Z);
  insights_data : insights
}.

Definition run_complete_analysis `{Re.Engine} (table : list Csv.title)
  (now : date)
  : method bundle :=
  fun self =>
    let* (_, self) := load_data table now self in
    let* (b, self) := basic_statistics self in
    let* (y, self) := yearly_evolution self in
    let* (d, self) := analyze_directors self in
    let* (g, self) := analyze_genres self in
    let* (_, self) := rating_patterns self in
    let* (_, self) := content_age_analysis self in
    let* (i, self) := generate_insights self in
    let* (_, self) := create_visualizations self in
    Ok (mkbundle b y d g i, self).

(** [main], for a given export and clock reading. *)
Definition main `{Re.Engine} (table : list Csv.title) (now : date)
  : result (bundle * IMDbAnalyzer) :=
  run_complete_analysis table now init.

(** The token and count a table row was built from. *)
Definition director_key (d : director_row) : string * Z :=
  (Director d, Director_Count d).

Definition genre_key (l : genre_line) : string * Z :=
  (Genre l, Genre_Count l).

(** ** Measures used to state properties *)

(** The count a value-count table holds for a value. *)
Fixpoint vc_count (k : Z) (l : list (Z * Z)) : Z :=
  match l with
  | [] => 0
  | (k', n) :: l' => (if k' =? k then n else 0) + vc_count k l'
  end.

(** The number of occurrences of a value in a column. *)
Fixpoint occZ (k : Z) (xs : list Z) : Z :=
  match xs with
  | [] => 0
  | x :: xs' => (if x =? k then 1 else 0) + occZ k xs'
  end.

(** The rows rated in a given year, and the rows given a certain rating. *)
Definition rated_in (y : Z) (r : row) : bool := Rating_Year r =? y.
Definition rated (v : Z) (r : row) : bool := Your_Rating r =? v.

(** The rows whose content age falls inside the bins. *)
Definition age_in_bins (r : row) : bool :=
  match Content_Age r with
  | Some a => (-1 <? a) && (a <=? 100)
  | None => false
  end.

(** A share of a whole, in percent. *)
Definition is_percentage (q : Q) : Prop := (0 <= q <= 100)%Q.

(** *** Pearson's coefficient, as statistics defines it

    The claim speaks of the Pearson correlation of the user rating and the
    platform rating over the records whose platform rating is present.  The
    definitions below follow those words, not the code: the sample is read
    off the rows, and the coefficient is the sum of the products of the
    deviations from the two means, over the root of the product of the two
    sums of squared deviations. *)





(** ** Sample frames *)

Module Sample.

Definition title (ty : string) (rating : Z) (imdb : option Q)
  (released : option Z) (rated : date) (genres directors : option string)
  : Csv.title :=
  Csv.mktitle ty rating imdb released rated None genres directors.

(** The reading of the clock used with the samples. *)
Definition clock : date := mkdate 2025 6 15.

(** The engine used with the samples.  It refuses every pattern outside the
    interpreted fragment.  The tokens of the sample frames are all inside
    that fragment, so their results do not depend on this choice; the one
    exception is [open_paren], whose token [re] refuses as well. *)
Definition refusing : Re.Engine :=
  Re.mkengine (fun _ => false) (fun _ _ => false).

(** The frame of an export, loaded. *)
Definition loaded (table : list Csv.title) (now : date) : IMDbAnalyzer :=
  mkanalyzer (Some (map (load_row now) table)) None None None.

(** A cell with an empty piece between two commas. *)
Definition double_comma : option string := Some "Drama,,Action".

(** A title of a type outside the three counted ones. *)
Definition mini_series : list Csv.title :=
  [title "TV Mini Series" 8 (Some (81 # 10)) (Some 2019) (mkdate 2020 5 1)
     (Some "Drama") (Some "Johan Renck")].

(** Titles released 101 years before, and one year after, the clock's
    year. *)
Definition silent_film : list Csv.title :=
  [title "Movie" 8 (Some (81 # 10)) (Some 1924) (mkdate 2020 5 1)
     (Some "Comedy") (Some "Buster Keaton")].

Definition unreleased : list Csv.title :=
  [title "Movie" 7 None (Some 2026) (mkdate 2025 6 1) (Some "Drama") None].

(** A title whose genre holds an opening parenthesis that is never
    closed. *)
Definition open_paren : list Csv.title :=
  [title "Movie" 7 None (Some 2015) (mkdate 2020 1 1) (Some "Sci(Fi") None].

(** The three records of the yearly example, with the cells the example
    leaves open passed in. *)
Definition three_ratings (ty1 ty2 ty3 : string) (y1 y2 y3 : option Z)
  (g1 g2 g3 d1 d2 d3 : option string) : list Csv.title :=
  [title ty1 9 (Some (17 # 2)) y1 (mkdate 2020 1 1) g1 d1;
   title ty2 7 (Some 7%Q) y2 (mkdate 2020 6 1) g2 d2;
   title ty3 9 (Some 9%Q) y3 (mkdate 2021 1 1) g3 d3].

(** Five titles directed by ["Nolan, C."]. *)
Definition nolan (rating : Z) (rated : date) : Csv.title :=
  title "Movie" rating (Some (17 # 2)) (Some 2010) rated (Some "Drama")
    (Some "Nolan, C.").

Definition five_nolan : list Csv.title :=
  [nolan 9 (mkdate 2019 3 1); nolan 8 (mkdate 2019 4 1);
   nolan 9 (mkdate 2020 1 5); nolan 7 (mkdate 2021 2 9);
   nolan 10 (mkdate 2021 7 30)].

(** Four titles of one genre and one director. *)
Definition four_dramas : list Csv.title :=
  map (fun rating =>
         title "Movie" rating None (Some 2015) (mkdate 2020 1 1)
           (Some "Drama") (Some "Ann Lee"))
      [6; 7; 8; 9].

(** Five titles by ["Ann"] and one by ["Anna"]. *)
Definition ann_and_anna : list Csv.title :=
  map (fun rating =>
         title "Movie" rating None (Some 2015) (mkdate 2020 1 1)
           (Some "Drama") (Some "Ann"))
      [8; 8; 8; 8; 8]
  ++ [title "Movie" 2 None (Some 2016) (mkdate 2022 1 1) (Some "Drama")
        (Some "Anna")].

(** One title listing sixteen genres. *)
Definition sixteen_genres : list Csv.title :=
  [title "Movie" 7 None (Some 2015) (mkdate 2020 1 1)
     (Some "a,b,c,d,e,f,g,h,i,j,k,l,m,n,o,p") None].

(** The three records of the yearly example and a fourth whose platform
    rating is absent. *)
Definition partly_rated : list Csv.title :=
  three_ratings "Movie" "Movie" "Movie" None None None None None None
    None None None
  ++ [title "Movie" 1 None None (mkdate 2021 2 1) None None].

End Sample.

#[global] Existing Instance Sample.refusing.

(** * Properties *)

(** ** Results *)

Lemma mapM_Ok_Forall2 {A B} (f : A -> result B) (xs : list A) (ys : list B) :
  mapM f xs = Ok ys -> Forall2 (fun x y => f x = Ok y) xs ys.
Proof.
  revert ys; induction xs as [|x xs IH]; intros ys H; simpl in H.
  - injection H as <-. constructor.
  - destruct (f x) as [y|e] eqn:Hx; simpl in H; [|discriminate].
    destruct (mapM f xs) as [ys'|e] eqn:Hxs; simpl in H; [|discriminate].
    injection H as <-. constructor; auto.
Qed.

Lemma mapM_total {A B} (f : A -> result B) (xs : list A) :
  (forall x, In x xs -> exists y, f x = Ok y) ->
  exists ys, mapM f xs = Ok ys.
Proof.
  induction xs as [|x xs IH]; intros H; simpl.
  - eexists; reflexivity.
  - destruct (H x (or_introl eq_refl)) as [y ->].
    destruct IH as [ys ->]; [intros; apply H; now right|].
    simpl. eexists; reflexivity.
Qed.

(** ** Strings *)

Module StrFacts.
Import Str.

Lemma split_cons (sep : ascii) (s : string) :
  exists p ps, split sep s = p :: ps.
Proof.
  destruct s as [|c s]; simpl; [now eexists; eexists|].
  destruct (Ascii.eqb c sep); [now eexists; eexists|].
  destruct (split sep s); now eexists; eexists.
Qed.

Lemma join_cons (sep p : string) (q : string) (qs : list string) :
  join sep (p :: q :: qs) = p ++ sep ++ join sep (q :: qs).
Proof. reflexivity. Qed.

Lemma join_split (sep : ascii) (s : string) :
  join (String sep EmptyString) (split sep s) = s.
Proof.
  induction s as [|c s IH]; [reflexivity|]. simpl split.
  destruct (Ascii.eqb c sep) eqn:E.
  - apply Ascii.eqb_eq in E; subst c.
    destruct (split_cons sep s) as (p & ps & Hs). rewrite Hs in *.
    rewrite join_cons, IH. reflexivity.
  - destruct (split_cons sep s) as (p & ps & Hs). rewrite Hs in *.
    destruct ps as [|q qs].
    + simpl in *. now rewrite IH.
    + rewrite join_cons. rewrite join_cons in IH. simpl in *. now rewrite IH.
Qed.

Lemma split_no_sep (sep : ascii) (s p : string) :
  In p (split sep s) -> count_char sep p = O.
Proof.
  revert p; induction s as [|c s IH]; intros p; simpl.
  - intros [<-|[]]; reflexivity.
  - destruct (Ascii.eqb c sep) eqn:E.
    + intros [<-|H]; [reflexivity|auto].
    + destruct (split_cons sep s) as (q & qs & Hs). rewrite Hs in *.
      intros [<-|H].
      * simpl. rewrite E. apply IH. now left.
      * apply IH. now right.
Qed.

Lemma split_length (sep : ascii) (s : string) :
  List.length (split sep s) = S (count_char sep s).
Proof.
  induction s as [|c s IH]; [reflexivity|]. simpl.
  destruct (Ascii.eqb c sep); simpl; [now rewrite IH|].
  destruct (split_cons sep s) as (q & qs & Hs). rewrite Hs in *.
  simpl in *. exact IH.
Qed.

(** Every piece of a split occurs in the string. *)
Lemma split_substring (sep : ascii) (s p : string) :
  In p (split sep s) -> exists a b, s = a ++ p ++ b.
Proof.
  revert p; induction s as [|c s IH]; intros p; simpl.
  - intros [<-|[]]. now exists EmptyString, EmptyString.
  - destruct (Ascii.eqb c sep) eqn:E.
    + intros [<-|H].
      * now exists EmptyString, (String c s).
      * destruct (IH _ H) as (a & b & ->). now exists (String c a), b.
    + destruct (split_cons sep s) as (q & qs & Hs). rewrite Hs in *.
      intros [<-|H].
      * destruct (IH q (or_introl eq_refl)) as (a & b & Hq).
        (* the first piece starts the string *)
        assert (Hpre : exists b', s = q ++ b').
        { clear -Hs. revert q qs Hs.
          induction s as [|d s IHs]; intros q qs Hs; simpl in Hs.
          - injection Hs as <- <-. now exists EmptyString.
          - destruct (Ascii.eqb d sep).
            + injection Hs as <- <-. now eexists.
            + destruct (split_cons sep s) as (q' & qs' & Hs').
              rewrite Hs' in Hs. injection Hs as <- <-.
              destruct (IHs _ _ Hs') as (b' & ->). now exists b'. }
        destruct Hpre as (b' & ->). now exists EmptyString, b'.
      * destruct (IH p (or_intror H)) as (a & b & ->).
        now exists (String c a), b.
Qed.

Lemma append_assoc (a b c : string) : (a ++ b) ++ c = a ++ b ++ c.
Proof. induction a; simpl; congruence. Qed.

Lemma append_nil_r (a : string) : a ++ EmptyString = a.
Proof. induction a; simpl; congruence. Qed.

Lemma lstrip_suffix (s : string) : exists a, s = a ++ lstrip s.
Proof.
  induction s as [|c s (a & IH)]; simpl.
  - now exists EmptyString.
  - destruct (is_space c).
    + exists (String c a). simpl. now f_equal.
    + now exists EmptyString.
Qed.

Lemma rstrip_prefix (s : string) : exists b, s = rstrip s ++ b.
Proof.
  induction s as [|c s (b & IH)]; simpl.
  - now exists EmptyString.
  - destruct (rstrip s) as [|d r] eqn:E.
    + destruct (is_space c).
      * now exists (String c s).
      * exists s. reflexivity.
    + exists b. simpl in *. now f_equal.
Qed.

Lemma strip_substring (s : string) : exists a b, s = a ++ strip s ++ b.
Proof.
  unfold strip. destruct (lstrip_suffix s) as (a & Ha).
  destruct (rstrip_prefix (lstrip s)) as (b & Hb).
  exists a, b. now rewrite <- Hb.
Qed.

Lemma lstrip_head (s : string) (c : ascii) (rest : string) :
  lstrip s = String c rest -> is_space c = false.
Proof.
  induction s as [|d s IH]; simpl; [discriminate|].
  destruct (is_space d) eqn:E; [exact IH|].
  intros H; injection H as <- <-. exact E.
Qed.

Lemma rstrip_head (s : string) (c : ascii) (rest : string) :
  rstrip s = String c rest -> exists rest', s = String c rest'.
Proof.
  destruct s as [|d s]; simpl; [discriminate|].
  destruct (rstrip s); [destruct (is_space d)|]; intros H;
    try discriminate; injection H as <- <-; now eexists.
Qed.

Lemma rstrip_last (s : string) (c : ascii) (front : string) :
  rstrip s = front ++ String c EmptyString -> is_space c = false.
Proof.
  revert front; induction s as [|d s IH]; intros front; simpl.
  - destruct front; discriminate.
  - destruct (rstrip s) as [|e r] eqn:E.
    + destruct (is_space d) eqn:Ed.
      * destruct front; discriminate.
      * destruct front as [|f front]; simpl; intros H.
        -- injection H as <-. exact Ed.
        -- injection H as _ H. destruct front; discriminate.
    + destruct front as [|f front]; simpl; intros H.
      * discriminate.
      * injection H as _ H. eapply IH. exact H.
Qed.

Lemma strip_trimmed (s : string) : trimmed (strip s).
Proof.
  unfold strip; split.
  - intros c rest H. destruct (rstrip_head _ _ _ H) as (rest' & H').
    eapply lstrip_head; eauto.
  - intros c front H. eapply rstrip_last; eauto.
Qed.

End StrFacts.

(** ** Regular expressions *)

Module ReFacts.
Import Re.

Lemma match_char_refl (p : ascii) : match_char p p = true.
Proof.
  unfold match_char. destruct (Ascii.eqb p ".") eqn:E.
  - apply Ascii.eqb_eq in E; subst. reflexivity.
  - apply Ascii.eqb_refl.
Qed.

Lemma match_here_self (t b : string) : match_here t (t ++ b) = true.
Proof.
  induction t as [|c t IH]; simpl; [reflexivity|].
  now rewrite match_char_refl, IH.
Qed.

Lemma search_here (t s : string) : match_here t s = true -> search t s = true.
Proof. destruct s; simpl; intros ->; reflexivity. Qed.

Lemma search_app (t a x : string) :
  search t x = true -> search t (a ++ x) = true.
Proof.
  induction a as [|c a IH]; simpl; [auto|].
  intros H. rewrite (IH H). apply orb_true_r.
Qed.

(** A pattern of the fragment matches wherever it occurs verbatim. *)
Lemma search_substring (t a b : string) : search t (a ++ t ++ b) = true.
Proof. apply search_app, search_here, match_here_self. Qed.

Lemma literal_supported (t : string) : literal t = true -> supported t = true.
Proof.
  induction t as [|c t IH]; simpl; [reflexivity|].
  intros H. apply andb_prop in H as [H1 H3]. apply andb_prop in H1 as [H1 _].
  now rewrite H1, IH.
Qed.

Lemma match_here_literal (t s : string) :
  literal t = true -> match_here t s = prefix t s.
Proof.
  revert s; induction t as [|c t IH]; intros s; simpl.
  - now destruct s.
  - intros H. apply andb_prop in H as [H1 H3]. apply andb_prop in H1 as [_ H2].
    destruct s as [|d s]; [reflexivity|].
    unfold match_char. apply negb_true_iff in H2. rewrite H2.
    rewrite (IH s H3). simpl prefix.
    destruct (ascii_dec c d) as [->|N].
    + now rewrite Ascii.eqb_refl.
    + apply Ascii.eqb_neq in N. now rewrite N.
Qed.

(** On a literal pattern the search is plain substring containment. *)
Lemma search_literal (t s : string) :
  literal t = true -> search t s = Str.contains t s.
Proof.
  intros H. induction s as [|d s IH]; simpl.
  - now rewrite match_here_literal.
  - now rewrite match_here_literal, IH.
Qed.

End ReFacts.

(** ** Counters and rankings *)

Lemma count_of_counter_add (t u : string) (c : list (string * Z)) :
  count_of t (counter_add u c)
  = count_of t c + (if String.eqb u t then 1 else 0).
Proof.
  induction c as [|[k n] c IH]; simpl.
  - destruct (String.eqb u t); lia.
  - destruct (String.eqb k u) eqn:E; simpl.
    + apply String.eqb_eq in E; subst k. destruct (String.eqb u t); lia.
    + rewrite IH. lia.
Qed.

Lemma count_of_Counter_gen (t : string) (l : list string)
  (acc : list (string * Z)) :
  count_of t (fold_left (fun c u => counter_add u c) l acc)
  = count_of t acc + occurrences t l.
Proof.
  revert acc; induction l as [|u l IH]; intros acc; simpl; [lia|].
  rewrite IH, count_of_counter_add. lia.
Qed.

Lemma counter_add_keys (u : string) (c : list (string * Z)) :
  NoDup (map fst c) ->
  NoDup (map fst (counter_add u c)) /\
  (forall k, In k (map fst (counter_add u c)) <-> k = u \/ In k (map fst c)).
Proof.
  induction c as [|[k n] c IH]; simpl; intros ND.
  - split; [repeat constructor; auto|]. intros k; intuition.
  - inversion ND as [|? ? Hk ND']; subst.
    destruct (String.eqb k u) eqn:E; simpl.
    + apply String.eqb_eq in E; subst k. split; [now constructor|].
      intros k; intuition.
    + destruct (IH ND') as [IH1 IH2]. split.
      * constructor; [|exact IH1]. rewrite IH2. intros [->|H]; [|auto].
        now rewrite String.eqb_refl in E.
      * intros k'. rewrite IH2. intuition.
Qed.

Lemma Counter_keys_gen (l : list string) (acc : list (string * Z)) :
  NoDup (map fst acc) ->
  NoDup (map fst (fold_left (fun c u => counter_add u c) l acc)) /\
  (forall k, In k (map fst (fold_left (fun c u => counter_add u c) l acc))
             <-> In k l \/ In k (map fst acc)).
Proof.
  revert acc; induction l as [|u l IH]; intros acc ND; simpl.
  - split; [exact ND|]. intros k; intuition.
  - destruct (counter_add_keys u acc ND) as [ND' Hk].
    destruct (IH _ ND') as [IH1 IH2]. split; [exact IH1|].
    intros k. rewrite IH2, Hk. intuition.
Qed.

Lemma count_of_NoDup (t : string) (n : Z) (c : list (string * Z)) :
  NoDup (map fst c) -> In (t, n) c -> count_of t c = n.
Proof.
  induction c as [|[k m] c IH]; simpl; intros ND; [intros []|].
  inversion ND as [|? ? Hk ND']; subst. intros [E|H].
  - injection E as -> ->. rewrite String.eqb_refl.
    assert (count_of t c = 0); [|lia].
    clear -Hk. induction c as [|[k m] c IH]; simpl in *; [reflexivity|].
    destruct (String.eqb k t) eqn:E.
    + apply String.eqb_eq in E. tauto.
    + rewrite IH; [lia|tauto].
  - destruct (String.eqb k t) eqn:E.
    + apply String.eqb_eq in E; subst k. exfalso. apply Hk.
      apply (in_map fst) in H. exact H.
    + rewrite (IH ND' H). lia.
Qed.

(** An entry of a counter holds the number of occurrences of its key. *)
Lemma Counter_count (l : list string) (t : string) (n : Z) :
  In (t, n) (Counter l) -> n = occurrences t l /\ In t l.
Proof.
  intros H. unfold Counter in *.
  destruct (Counter_keys_gen l [] (NoDup_nil _)) as [ND Hk].
  split.
  - rewrite <- (count_of_NoDup t n _ ND H), count_of_Counter_gen.
    simpl. lia.
  - apply (in_map fst) in H. apply Hk in H. simpl in H. tauto.
Qed.

Lemma insert_desc_perm (x : string * Z) (l : list (string * Z)) :
  Permutation (x :: l) (insert_desc x l).
Proof.
  induction l as [|y l IH]; simpl; [reflexivity|].
  destruct (snd x <? snd y); [|reflexivity].
  rewrite perm_swap. now constructor.
Qed.

Lemma insert_desc_sorted (x : string * Z) (l : list (string * Z)) :
  Sorted ge_count l -> Sorted ge_count (insert_desc x l).
Proof.
  induction l as [|y l IH]; simpl; intros S.
  - repeat constructor.
  - destruct (snd x <? snd y) eqn:E.
    + inversion S as [|? ? S' Hd]; subst. constructor; [auto|].
      destruct l as [|z l]; simpl.
      * constructor. unfold ge_count. lia.
      * destruct (snd x <? snd z) eqn:E'.
        -- constructor. now inversion Hd.
        -- constructor. unfold ge_count. lia.
    + constructor; [exact S|]. constructor. unfold ge_count. lia.
Qed.

Lemma ranking_perm (c : list (string * Z)) :
  Permutation c (fold_right insert_desc [] c).
Proof.
  induction c as [|x c IH]; simpl; [reflexivity|].
  rewrite <- insert_desc_perm. now constructor.
Qed.

Lemma ranking_sorted (c : list (string * Z)) :
  Sorted ge_count (fold_right insert_desc [] c).
Proof.
  induction c as [|x c IH]; simpl; [constructor|].
  now apply insert_desc_sorted.
Qed.

Lemma In_firstn {A} (n : nat) (l : list A) (x : A) :
  In x (firstn n l) -> In x l.
Proof.
  revert l; induction n as [|n IH]; intros [|y l]; simpl; try tauto.
  intros [->|H]; auto.
Qed.

Lemma most_common_In (n : nat) (c : list (string * Z)) (x : string * Z) :
  In x (most_common n c) -> In x c.
Proof.
  unfold most_common. intros H. apply In_firstn in H.
  eapply Permutation_in; [symmetry; apply ranking_perm|exact H].
Qed.

(** A token ranked by [most_common] over a column's tokens is listed by some
    cell of the column, and its count is its number of occurrences. *)
Lemma ranked_token_listed (n : nat) (column : list (option string))
  (t : string) (k : Z) :
  In (t, k) (most_common n (Counter (token_list column))) ->
  k = occurrences t (token_list column) /\
  exists cell, In cell column /\ In t (field_tokens cell).
Proof.
  intros H. apply most_common_In, Counter_count in H as [Hk Ht].
  split; [exact Hk|]. unfold token_list in Ht.
  apply in_flat_map in Ht as (cell & Hc & Ht). eauto.
Qed.

(** ** The splitter *)

Lemma field_tokens_absent : field_tokens None = [].
Proof. reflexivity. Qed.

Lemma field_tokens_present (s : string) :
  s <> EmptyString ->
  field_tokens (Some s) = map Str.strip (Str.split ","%char s).
Proof. destruct s; [congruence|reflexivity]. Qed.

(** C1, as stated, fails: a cell with two commas in a row, or with a comma
    at its end, yields an empty token; the splitter does not drop it. *)
Lemma field_tokens_empty_token :
  field_tokens Sample.double_comma = ["Drama"; ""; "Action"] /\
  ~ (forall cell t, In t (field_tokens cell) -> t <> "").
Proof.
  split; [reflexivity|].
  intros H. apply (H Sample.double_comma ""); [|reflexivity].
  simpl. tauto.
Qed.

(** C1, amended: the splitter returns, in order, the stripped pieces between
    the commas of the cell.  An absent or empty cell gives no token; any
    other cell gives one token per piece, that is one more than it has
    commas, so nothing is dropped or merged and a repeated token is counted
    once per occurrence; every token is trimmed (it neither starts nor ends
    with whitespace) but may be empty. *)
Theorem field_tokens_spec (cell : option string) :
  (cell = None \/ cell = Some "" -> field_tokens cell = []) /\
  (forall s, cell = Some s -> s <> "" ->
     exists pieces,
       Str.join "," pieces = s /\
       (forall p, In p pieces -> Str.count_char ","%char p = O) /\
       field_tokens cell = map Str.strip pieces /\
       List.length (field_tokens cell) = S (Str.count_char ","%char s)) /\
  (forall t, In t (field_tokens cell) -> Str.trimmed t) /\
  (forall t n, In (t, n) (Counter (field_tokens cell)) ->
     n = occurrences t (field_tokens cell)).
Proof.
  split; [|split; [|split]].
  - intros [E|E]; subst cell; reflexivity.
  - intros s E Hs. subst cell. exists (Str.split ","%char s).
    rewrite (field_tokens_present s Hs), length_map.
    split; [|split; [|split]].
    + apply StrFacts.join_split.
    + apply StrFacts.split_no_sep.
    + reflexivity.
    + apply StrFacts.split_length.
  - destruct cell as [s|]; [|intros _ []].
    destruct s as [|c s]; [intros _ []|].
    rewrite field_tokens_present by discriminate.
    intros t [p [<- _]]%in_map_iff. apply StrFacts.strip_trimmed.
  - intros t n H. now apply Counter_count in H.
Qed.

Lemma field_tokens_spec_witness :
  exists pieces,
    Str.join "," pieces = "Drama, Drama" /\
    (forall p, In p pieces -> Str.count_char ","%char p = O) /\
    field_tokens (Some "Drama, Drama") = map Str.strip pieces /\
    List.length (field_tokens (Some "Drama, Drama")) = 2%nat.
Proof.
  destruct (field_tokens_spec (Some "Drama, Drama")) as (_ & H & _).
  apply (H "Drama, Drama" eq_refl). discriminate.
Defined.

(** ** Counting rows *)

Ltac cases_Z :=
  repeat match goal with
    | |- context [?a <? ?b] => destruct (Z.ltb_spec a b)
    | |- context [?a <=? ?b] => destruct (Z.leb_spec a b)
    | |- context [?a =? ?b] => destruct (Z.eqb_spec a b)
    end.

Lemma len_cons {A} (x : A) (l : list A) : len (x :: l) = 1 + len l.
Proof. unfold len. simpl List.length. lia. Qed.

Lemma len_nonneg {A} (l : list A) : 0 <= len l.
Proof. unfold len. lia. Qed.

Lemma len_zero {A} (l : list A) : len l = 0 -> l = [].
Proof.
  destruct l; [reflexivity|]. rewrite len_cons.
  pose proof (len_nonneg l). lia.
Qed.

Lemma count_where_cons (p : row -> bool) (r : row) (rows : list row) :
  count_where p (r :: rows) = (if p r then 1 else 0) + count_where p rows.
Proof.
  unfold count_where. simpl. destruct (p r); [apply len_cons|reflexivity].
Qed.

Lemma count_where_bounds (p : row -> bool) (rows : list row) :
  0 <= count_where p rows <= len rows.
Proof.
  induction rows as [|r rows IH]; [unfold count_where, len; simpl; lia|].
  rewrite count_where_cons, len_cons. destruct (p r); lia.
Qed.

Lemma count_where_all (p : row -> bool) (rows : list row) :
  count_where p rows = len rows <-> Forall (fun r => p r = true) rows.
Proof.
  induction rows as [|r rows IH].
  - split; [constructor|reflexivity].
  - rewrite count_where_cons, len_cons.
    pose proof (count_where_bounds p rows). split.
    + intros H'. destruct (p r) eqn:E; [|lia].
      constructor; [exact E|]. apply IH. lia.
    + intros H'. inversion H' as [|? ? E F]; subst.
      rewrite E. apply IH in F. lia.
Qed.

Lemma count_where_ext (p q : row -> bool) (rows : list row) :
  (forall r, p r = q r) -> count_where p rows = count_where q rows.
Proof.
  intros E. induction rows as [|r rows IH]; [reflexivity|].
  now rewrite !count_where_cons, E, IH.
Qed.

(** The three counted types exclude one another. *)
Lemma counted_types_sum (rows : list row) :
  count_where (is_type "Movie") rows + count_where (is_type "TV Series") rows
  + count_where (is_type "TV Episode") rows
  = count_where counted_type rows.
Proof.
  induction rows as [|r rows IH]; [reflexivity|].
  rewrite !count_where_cons, <- IH.
  generalize (count_where (is_type "Movie") rows),
    (count_where (is_type "TV Series") rows),
    (count_where (is_type "TV Episode") rows).
  intros a b c. unfold counted_type, is_type.
  destruct (String.eqb_spec (Title_Type r) "Movie") as [->|];
    [cbn -[Z.add]; lia|].
  destruct (String.eqb_spec (Title_Type r) "TV Series") as [->|];
    [cbn -[Z.add]; lia|].
  destruct (String.eqb_spec (Title_Type r) "TV Episode"); cbn -[Z.add]; lia.
Qed.

(** ** Value counts, modes and maxima *)

Lemma vc_add_keys (x : Z) (l : list (Z * Z)) (k : Z) :
  In k (map fst (vc_add x l)) <-> k = x \/ In k (map fst l).
Proof.
  induction l as [|[k' n] l IH]; simpl; [intuition|].
  cases_Z; simpl; subst; try rewrite IH; intuition.
Qed.

Lemma value_counts_keys_gen (xs : list Z) (acc : list (Z * Z)) (k : Z) :
  In k (map fst (fold_left (fun l x => vc_add x l) xs acc))
  <-> In k xs \/ In k (map fst acc).
Proof.
  revert acc; induction xs as [|x xs IH]; intros acc; simpl; [intuition|].
  rewrite IH, vc_add_keys. intuition.
Qed.

(** The distinct values of a column are exactly its values. *)
Lemma sorted_unique_In (xs : list Z) (k : Z) :
  In k (sorted_unique xs) <-> In k xs.
Proof.
  unfold sorted_unique, value_counts_sort_index.
  rewrite value_counts_keys_gen. simpl. intuition.
Qed.

Lemma idxmax_Some {K V} (gtb : V -> V -> bool) (l : list (K * V)) :
  l <> [] -> exists p, idxmax gtb l = Some p /\ In p l.
Proof.
  induction l as [|p l IH]; [congruence|]. intros _. simpl.
  destruct l as [|q l].
  - simpl. eauto.
  - destruct IH as (m & -> & Hm); [discriminate|].
    destruct (gtb (snd m) (snd p)); eauto.
Qed.

Lemma mode_first_Ok (xs : list Z) :
  xs <> [] -> exists m, mode_first xs = Ok m.
Proof.
  intros H. unfold mode_first.
  destruct (idxmax_Some Z.gtb (value_counts_sort_index xs))
    as ([m c] & -> & _); [|eauto].
  destruct xs as [|x xs]; [congruence|]. intros E.
  assert (In x (sorted_unique (x :: xs))) as I
      by (apply sorted_unique_In; now left).
  unfold sorted_unique in I. now rewrite E in I.
Qed.

Lemma percent_Ok (a b : Z) : b <> 0 -> exists q, percent a b = Ok q.
Proof.
  intros H. unfold percent. destruct (Z.eqb_spec b 0); [lia|eauto].
Qed.

(** ** Basic statistics *)

Lemma basic_statistics_returns (self : IMDbAnalyzer) (rows : list row) :
  df self = Some rows -> rows <> [] ->
  exists m,
    mode_first (map Your_Rating rows) = Ok m /\
    basic_statistics self
    = Ok (mkstats (len rows)
            (count_where (is_type "Movie") rows)
            (count_where (is_type "TV Series") rows)
            (count_where (is_type "TV Episode") rows)
            (mean (map Your_Rating rows)) m
            (corr (map Your_Rating rows) (map IMDb_Rating rows)),
          self).
Proof.
  intros Hdf Hne. unfold basic_statistics, get_df. rewrite Hdf. simpl rbind.
  destruct (mode_first_Ok (map Your_Rating rows)) as (m & ->).
  { destruct rows; [congruence|discriminate]. }
  simpl rbind. cbv [total_entries movies tv_series tv_episodes].
  assert (len rows <> 0) as Hlen by (intros E; apply len_zero in E; auto).
  destruct (percent_Ok (count_where (is_type "Movie") rows) _ Hlen) as (? & ->).
  destruct (percent_Ok (count_where (is_type "TV Series") rows) _ Hlen)
    as (? & ->).
  destruct (percent_Ok (count_where (is_type "TV Episode") rows) _ Hlen)
    as (? & ->).
  simpl rbind. eexists; split; reflexivity.
Qed.

(** C4, as stated, fails: a frame holding a title of a fourth type has three
    counts that sum to less than its number of entries. *)
Lemma title_type_counts_fall_short :
  exists st self',
    basic_statistics (Sample.loaded Sample.mini_series Sample.clock)
    = Ok (st, self') /\
    total_entries st = 1 /\
    movies st + tv_series st + tv_episodes st = 0.
Proof. eexists; eexists; split; [reflexivity|split; reflexivity]. Qed.

(** C4, amended: on a non-empty frame [basic_statistics] returns, its
    [total_entries] is the number of rows, and the three title-type counts
    sum to the number of rows whose type is Movie, TV Series or TV Episode;
    that sum is at most [total_entries] and reaches it exactly when every
    row has one of the three types. *)
Theorem basic_statistics_counts (self : IMDbAnalyzer) (rows : list row) :
  df self = Some rows -> rows <> [] ->
  exists st,
    basic_statistics self = Ok (st, self) /\
    total_entries st = len rows /\
    movies st + tv_series st + tv_episodes st
    = count_where counted_type rows /\
    movies st + tv_series st + tv_episodes st <= total_entries st /\
    (movies st + tv_series st + tv_episodes st = total_entries st
     <-> Forall (fun r => counted_type r = true) rows).
Proof.
  intros Hdf Hne.
  destruct (basic_statistics_returns self rows Hdf Hne) as (m & _ & ->).
  eexists; split; [reflexivity|].
  cbn [total_entries movies tv_series tv_episodes].
  rewrite counted_types_sum.
  split; [reflexivity|]. split; [reflexivity|].
  split; [apply count_where_bounds|apply count_where_all].
Qed.

Lemma basic_statistics_counts_witness :
  exists st,
    basic_statistics (Sample.loaded Sample.five_nolan Sample.clock)
    = Ok (st, Sample.loaded Sample.five_nolan Sample.clock) /\
    total_entries st = 5 /\
    movies st + tv_series st + tv_episodes st = 5.
Proof.
  destruct (basic_statistics_counts
              (Sample.loaded Sample.five_nolan Sample.clock)
              (map (load_row Sample.clock) Sample.five_nolan)
              eq_refl ltac:(discriminate))
    as (st & H1 & H2 & H3 & _).
  exists st. split; [exact H1|]. split; [exact H2|].
  rewrite H3. reflexivity.
Defined.

(** ** Age buckets *)

Lemma age_group_eqb_eq (a b : age_group) : age_group_eqb a b = true <-> a = b.
Proof. destruct a, b; simpl; split; congruence. Qed.

Lemma cut_age_bounds (a : Z) (g : age_group) :
  cut age_bins age_labels (Some a) = Some g <-> in_bounds g a = true.
Proof.
  unfold in_bounds. simpl. destruct g; simpl; cases_Z; simpl;
    split; intros E; try discriminate; try reflexivity; try lia;
    try (injection E as E; discriminate).
Qed.

Lemma in_group_age_in (g : age_group) (r : row) : in_group g r = age_in g r.
Proof.
  unfold in_group, age_in, age_group_of.
  destruct (Content_Age r) as [a|]; [|reflexivity].
  destruct (cut age_bins age_labels (Some a)) as [g'|] eqn:E.
  - apply cut_age_bounds in E.
    destruct (age_group_eqb g g') eqn:E'.
    + apply age_group_eqb_eq in E'. now subst.
    + destruct (in_bounds g a) eqn:B; [|reflexivity].
      apply cut_age_bounds in B. apply cut_age_bounds in E.
      rewrite B in E. injection E as ->.
      now rewrite (proj2 (age_group_eqb_eq g' g') eq_refl) in E'.
  - destruct (in_bounds g a) eqn:B; [|reflexivity].
    apply cut_age_bounds in B. congruence.
Qed.

(** C7, as stated, fails: a title released 101 years before the clock's
    year has a defined content age and no bucket, and so has one released
    the year after it. *)
Lemma defined_age_without_bucket :
  (exists r, In r (map (load_row Sample.clock) Sample.silent_film) /\
             Content_Age r = Some 101 /\ age_group_of r = None) /\
  (exists r, In r (map (load_row Sample.clock) Sample.unreleased) /\
             Content_Age r = Some (-1) /\ age_group_of r = None).
Proof.
  split; eexists; (split; [left; reflexivity|split; reflexivity]).
Qed.

(** C7, amended: every row whose content age [a] satisfies [-1 < a <= 100]
    is assigned exactly one of the five buckets, the one whose interval
    among (-1,5], (5,15], (15,30], (30,50], (50,100] holds [a]; age 5 falls
    in the 0-5 bucket and age 6 in the 6-15 bucket; a row with an undefined
    content age has no bucket, and each bucket of the rollup counts the rows
    whose age lies in its interval. *)
Theorem age_bucket_assignment (rows : list row) :
  (forall r a, Content_Age r = Some a -> -1 < a <= 100 ->
     exists g, age_group_of r = Some g /\ in_bounds g a = true /\
               forall g', in_group g' r = true <-> g' = g) /\
  (forall r, Content_Age r = Some 5 -> age_group_of r = Some Very_Recent) /\
  (forall r, Content_Age r = Some 6 -> age_group_of r = Some Recent) /\
  (forall r, Content_Age r = None ->
     age_group_of r = None /\ forall g, in_group g r = false) /\
  map (fun x => (Age_Group_index x, Age_Count x)) (age_table rows)
  = map (fun g => (g, count_where (age_in g) rows)) age_labels.
Proof.
  split; [|split; [|split; [|split]]].
  - intros r a Ha Hr.
    assert (exists g, cut age_bins age_labels (Some a) = Some g) as (g & Hg).
    { simpl. cases_Z; simpl; eauto; lia. }
    exists g. unfold age_group_of. rewrite Ha. split; [exact Hg|].
    split; [now apply cut_age_bounds|].
    intros g'. unfold in_group, age_group_of. rewrite Ha, Hg.
    rewrite age_group_eqb_eq. reflexivity.
  - intros r Ha. unfold age_group_of. now rewrite Ha.
  - intros r Ha. unfold age_group_of. now rewrite Ha.
  - intros r Ha. unfold in_group, age_group_of. rewrite Ha. now split.
  - unfold age_table. rewrite map_map. apply map_ext. intros g. simpl.
    f_equal. apply count_where_ext. intros r. apply in_group_age_in.
Qed.

Lemma age_bucket_assignment_witness :
  exists g,
    age_group_of (load_row Sample.clock (Sample.nolan 9 (mkdate 2019 3 1)))
    = Some g /\ in_bounds g 15 = true.
Proof.
  destruct (age_bucket_assignment
              (map (load_row Sample.clock) Sample.five_nolan)) as (H & _).
  destruct (H (load_row Sample.clock (Sample.nolan 9 (mkdate 2019 3 1))) 15
              eq_refl ltac:(lia)) as (g & H1 & H2 & _).
  exists g. split; assumption.
Defined.

(** ** The yearly rollup *)

Lemma yearly_table_In (rows : list row) (y : yearly_row) :
  In y (yearly_table rows) ->
  exists yr, In yr (map Rating_Year rows) /\ y = yearly_agg rows yr.
Proof.
  unfold yearly_table. intros (yr & <- & H)%in_map_iff.
  exists yr. split; [now apply sorted_unique_In|reflexivity].
Qed.

(** C8: on the three records of the example the yearly rollup has a row for
    2020 with count 2 and mean 8 and a row for 2021 with count 1, mean 9 and
    [nan] for the deviation; and on any frame the deviation of a year with a
    single record is [nan], returned not raised. *)
Theorem yearly_rollup_example
  (ty1 ty2 ty3 : string) (y1 y2 y3 : option Z)
  (g1 g2 g3 d1 d2 d3 : option string) (now : date) :
  (exists table self',
     yearly_evolution
       (Sample.loaded
          (Sample.three_ratings ty1 ty2 ty3 y1 y2 y3 g1 g2 g3 d1 d2 d3) now)
     = Ok (table, self') /\
     map (fun y => (Rating_Year_index y, Count y, Avg_Your_Rating y,
                    Std_Your_Rating y)) table
     = [(2020, 2, rat 8, rat (141 # 100)); (2021, 1, rat 9, nan)]) /\
  (forall self rows,
     df self = Some rows ->
     exists self', yearly_evolution self = Ok (yearly_table rows, self') /\
     forall y, In y (yearly_table rows) -> Count y = 1 ->
               Std_Your_Rating y = nan).
Proof.
  split.
  - eexists; eexists; split; [reflexivity|]. vm_compute. reflexivity.
  - intros self rows Hdf. unfold yearly_evolution, get_df. rewrite Hdf.
    simpl rbind. eexists; split; [reflexivity|].
    intros y (yr & _ & ->)%yearly_table_In. unfold yearly_agg.
    cbn [Count Std_Your_Rating]. intros H1. unfold std.
    unfold len in *. rewrite length_map, H1. reflexivity.
Qed.

(** ** Empty frames *)

(** C9: on a frame without rows [rating_patterns] raises
    [ZeroDivisionError] at its unguarded percentage of high ratings,
    and [basic_statistics], hence [generate_insights], raises [IndexError]
    at the mode, where the guarded percentage of the chart panels gives 0
    and the mean, the deviation and the correlation of an empty sample are
    [nan]. *)
Theorem empty_frame_raises (now : date) :
  load_data [] now init = Ok (tt, Sample.loaded [] now) /\
  rating_patterns (Sample.loaded [] now) = Raise ZeroDivisionError /\
  basic_statistics (Sample.loaded [] now) = Raise IndexError /\
  generate_insights (Sample.loaded [] now) = Raise IndexError /\
  guarded_percent 0 (len (@nil row)) = Ok 0%Q /\
  mean [] = nan /\ std [] = nan /\ corr [] [] = nan.
Proof. repeat split. Qed.

(** ** The clock *)

Lemma load_row_year (now1 now2 : date) (t : Csv.title) :
  year now1 = year now2 -> load_row now1 t = load_row now2 t.
Proof. intros E. unfold load_row. now rewrite E. Qed.

(** The analyzer [load_data] leaves behind when called on a fresh one. *)
Lemma load_data_loaded (table : list Csv.title) (now : date) :
  load_data table now init = Ok (tt, Sample.loaded table now).
Proof. reflexivity. Qed.

(** ** Token tables *)

(** A token cut from a cell is found in that cell by [re.search]. *)
Lemma listed_token_matches (column : row -> option string) (t : string)
  (r : row) :
  In t (field_tokens (column r)) -> matches column t r = true.
Proof.
  unfold matches. destruct (column r) as [s|]; [|intros []].
  destruct s as [|c s]; [intros []|].
  rewrite field_tokens_present by discriminate.
  intros (p & <- & Hp)%in_map_iff.
  destruct (StrFacts.split_substring _ _ _ Hp) as (a & b & ->).
  destruct (StrFacts.strip_substring p) as (a' & b' & Hs).
  rewrite Hs at 2.
  rewrite !StrFacts.append_assoc, <- (StrFacts.append_assoc a a').
  apply ReFacts.search_substring.
Qed.

Lemma lists_In (column : row -> option string) (t : string) (r : row) :
  lists column t r = true <-> In t (field_tokens (column r)).
Proof.
  unfold lists. rewrite existsb_exists. split.
  - intros (u & Hu & ->%String.eqb_eq). exact Hu.
  - intros H. exists t. split; [exact H|apply String.eqb_refl].
Qed.

Lemma max_date_Some (ds : list date) :
  ds <> [] -> exists d, max_date ds = Some d.
Proof.
  destruct ds as [|d ds]; [congruence|]. intros _. simpl.
  destruct (max_date ds) as [m|]; [destruct (date_leb d m)|]; eauto.
Qed.

(** On a pattern of the fragment the engine is not consulted. *)
Lemma picks_supported {engine : Re.Engine} (column : row -> option string)
  (t : string) (r : row) :
  Re.supported t = true -> picks column t r = matches column t r.
Proof. intros Hs. unfold picks, matches. now rewrite Hs. Qed.

Lemma filter_picks_supported {engine : Re.Engine}
  (column : row -> option string) (t : string) (rows : list row) :
  Re.supported t = true ->
  filter (picks column t) rows = filter (matches column t) rows.
Proof.
  intros Hs. apply filter_ext. intros r. now apply picks_supported.
Qed.

(** What a row of the director table holds. *)
Lemma director_entry_spec {engine : Re.Engine} (rows : list row)
  (t : string) (c : Z) (d : director_row) :
  director_entry rows (t, c) = Ok d ->
  Re.supported t || Re.compiles t = true /\
  Director d = t /\ Director_Count d = c /\
  Avg_Rating d = mean (map Your_Rating (filter (picks Directors t) rows)) /\
  Std_Rating d = std (map Your_Rating (filter (picks Directors t) rows)) /\
  max_date (map Date_Rated (filter (picks Directors t) rows))
  = Some (Latest_Work d).
Proof.
  unfold director_entry, select_contains.
  destruct (Re.supported t || Re.compiles t); [|discriminate]. simpl rbind.
  destruct (max_date _) as [m|]; [|discriminate]. simpl rbind.
  intros E; injection E as <-. repeat split.
Qed.

Lemma director_entry_total {engine : Re.Engine} (rows : list row)
  (t : string) (c : Z) :
  Re.supported t = true ->
  (exists r, In r rows /\ In t (field_tokens (Directors r))) ->
  exists d, director_entry rows (t, c) = Ok d.
Proof.
  intros Hs (r & Hr & Ht). unfold director_entry, select_contains.
  rewrite Hs. cbn [orb]. simpl rbind.
  destruct (max_date_Some
              (map Date_Rated (filter (picks Directors t) rows)))
    as (m & ->); [|simpl; eauto].
  assert (In r (filter (picks Directors t) rows)) as I.
  { apply filter_In. split; [exact Hr|]. rewrite picks_supported by exact Hs.
    now apply listed_token_matches. }
  intros E. apply (in_map Date_Rated) in I. now rewrite E in I.
Qed.

Lemma genre_entry_spec {engine : Re.Engine} (rows : list row)
  (t : string) (c : Z) (l : genre_line) :
  genre_entry rows (t, c) = Ok l ->
  Re.supported t || Re.compiles t = true /\
  Genre l = t /\ Genre_Count l = c /\
  Genre_Avg_Rating l
  = mean (map Your_Rating (filter (picks Genres t) rows)) /\
  percent c (len rows) = Ok (Genre_Percentage l).
Proof.
  unfold genre_entry, select_contains.
  destruct (Re.supported t || Re.compiles t); [|discriminate]. simpl rbind.
  destruct (percent c (len rows)) as [q|]; [|discriminate]. simpl rbind.
  intros E; injection E as <-. repeat split.
Qed.

(** The rows of the director table are, in order, the ranked entries that
    pass the guard. *)
Lemma director_table_keys {engine : Re.Engine}
  (rows : list row) (table : list director_row) :
  director_table rows = Ok table ->
  map director_key table = filter director_guard (top_directors rows).
Proof.
  unfold director_table. intros H%mapM_Ok_Forall2.
  induction H as [|[t c] d es ds Hd _ IH]; [reflexivity|].
  apply director_entry_spec in Hd as (_ & Ht & Hc & _).
  simpl. unfold director_key at 1. now rewrite Ht, Hc, IH.
Qed.

Lemma genre_lines_keys {engine : Re.Engine}
  (rows : list row) (lines : list genre_line) :
  genre_lines rows = Ok lines ->
  map genre_key lines = filter genre_guard (top_genres rows).
Proof.
  unfold genre_lines. intros H%mapM_Ok_Forall2.
  induction H as [|[t c] l es ls Hl _ IH]; [reflexivity|].
  apply genre_entry_spec in Hl as (_ & Ht & Hc & _).
  simpl. unfold genre_key at 1. now rewrite Ht, Hc, IH.
Qed.

Lemma ranked_director_listed (rows : list row) (t : string) (c : Z) :
  In (t, c) (top_directors rows) ->
  exists r, In r rows /\ In t (field_tokens (Directors r)).
Proof.
  intros H. apply ranked_token_listed in H as (_ & cell & Hc & Ht).
  apply in_map_iff in Hc as (r & <- & Hr). eauto.
Qed.

(** The director table is built whenever the guarded tokens are patterns of
    the fragment. *)
Lemma director_table_total {engine : Re.Engine} (rows : list row) :
  (forall t c, In (t, c) (filter director_guard (top_directors rows)) ->
               Re.supported t = true) ->
  exists table, director_table rows = Ok table.
Proof.
  intros H. apply mapM_total. intros [t c] I.
  apply director_entry_total; [eapply H; eauto|].
  apply filter_In in I as [I _]. eapply ranked_director_listed; eauto.
Qed.

Lemma ranked_genre_listed (rows : list row) (t : string) (c : Z) :
  In (t, c) (top_genres rows) ->
  exists r, In r rows /\ In t (field_tokens (Genres r)).
Proof.
  intros H. apply ranked_token_listed in H as (_ & cell & Hc & Ht).
  apply in_map_iff in Hc as (r & <- & Hr). eauto.
Qed.

Lemma genre_lines_total {engine : Re.Engine} (rows : list row) :
  (forall t c, In (t, c) (filter genre_guard (top_genres rows)) ->
               Re.supported t = true) ->
  exists lines, genre_lines rows = Ok lines.
Proof.
  intros H. apply mapM_total. intros [t c] I.
  unfold genre_entry, select_contains. rewrite (H t c I). cbn [orb].
  simpl rbind. apply filter_In in I as [I _].
  destruct (ranked_genre_listed _ _ _ I) as (r & Hr & _).
  destruct (percent_Ok c (len rows)) as (q & ->); [|simpl; eauto].
  intros E. apply len_zero in E. now subst.
Qed.

Lemma analyze_directors_total {engine : Re.Engine}
  (self : IMDbAnalyzer) (rows : list row) :
  df self = Some rows ->
  (forall t c, In (t, c) (filter director_guard (top_directors rows)) ->
               Re.supported t = true) ->
  filter director_guard (top_directors rows) <> [] ->
  exists table self', analyze_directors self = Ok (table, self').
Proof.
  intros Hdf Hs Hne. destruct (director_table_total rows Hs) as (tb & Ht).
  unfold analyze_directors, get_df. rewrite Hdf. simpl rbind.
  rewrite Ht. simpl rbind.
  pose proof (director_table_keys _ _ Ht) as Hk.
  destruct tb; [simpl in Hk; congruence|]. simpl rbind. eauto.
Qed.

Lemma analyze_directors_inv {engine : Re.Engine}
  (self : IMDbAnalyzer) (rows : list row)
  (table : list director_row) (self' : IMDbAnalyzer) :
  df self = Some rows ->
  analyze_directors self = Ok (table, self') ->
  director_table rows = Ok table /\ table <> [].
Proof.
  intros Hdf. unfold analyze_directors, get_df. rewrite Hdf. simpl rbind.
  destruct (director_table rows) as [tb|]; [|discriminate]. simpl rbind.
  destruct tb; [discriminate|]. simpl rbind.
  intros E; injection E as <- _. split; [reflexivity|discriminate].
Qed.

Lemma truthy_nonempty (s : string) : Str.truthy s = true <-> s <> "".
Proof. destruct s; simpl; split; congruence. Qed.

Lemma director_guard_iff (t : string) (c : Z) :
  director_guard (t, c) = true <-> t <> "" /\ 5 <= c.
Proof.
  unfold director_guard. simpl. rewrite andb_true_iff, truthy_nonempty.
  rewrite Z.leb_le. reflexivity.
Qed.

Lemma top_ranking (column : list (option string)) :
  exists ranking,
    Permutation (Counter (token_list column)) ranking /\
    Sorted ge_count ranking /\
    most_common 15 (Counter (token_list column)) = firstn 15 ranking.
Proof.
  exists (fold_right insert_desc [] (Counter (token_list column))).
  split; [apply ranking_perm|]. split; [apply ranking_sorted|reflexivity].
Qed.

(** C2, as stated, fails for the genre column: its loop has no count
    threshold.  With four titles of one genre and one director, the genre,
    counted 4, gets its line and average, while the director, also counted
    4, gets no row. *)
Lemma genre_below_threshold_analyzed :
  let rows := map (load_row Sample.clock) Sample.four_dramas in
  top_genres rows = [("Drama", 4)] /\
  genre_lines rows = Ok [mkgenre "Drama" 4 100 (rat (15 # 2))] /\
  top_directors rows = [("Ann Lee", 4)] /\
  director_table rows = Ok [].
Proof. repeat split. Qed.

(** C2, amended: both columns are ranked alike, by descending count over the
    tokens of the column with the first 15 kept.  For the director column a
    row is built exactly for the kept tokens that are non-empty and counted
    at least 5: a count of 5 passes, a count of 4 does not.  For the genre
    column a line is built for every kept non-empty token, whatever its
    count.  Both tables are built whenever the guarded tokens are patterns
    of the fragment (and, for the directors, at least one passes the
    guard). *)
Theorem token_tables_selection {engine : Re.Engine}
  (self : IMDbAnalyzer) (rows : list row) :
  df self = Some rows ->
  (exists ranking,
     Permutation (Counter (token_list (map Directors rows))) ranking /\
     Sorted ge_count ranking /\ top_directors rows = firstn 15 ranking) /\
  (exists ranking,
     Permutation (Counter (token_list (map Genres rows))) ranking /\
     Sorted ge_count ranking /\ top_genres rows = firstn 15 ranking) /\
  (forall table self',
     analyze_directors self = Ok (table, self') ->
     (forall t c, In (t, c) (map director_key table)
                  <-> In (t, c) (top_directors rows) /\ t <> "" /\ 5 <= c) /\
     (forall t, t <> "" -> In (t, 5) (top_directors rows) ->
                In (t, 5) (map director_key table)) /\
     (forall t, ~ In (t, 4) (map director_key table))) /\
  (forall lines,
     genre_lines rows = Ok lines ->
     forall t c, In (t, c) (map genre_key lines)
                 <-> In (t, c) (top_genres rows) /\ t <> "") /\
  ((forall t c, In (t, c) (filter director_guard (top_directors rows)) ->
                Re.supported t = true) ->
   filter director_guard (top_directors rows) <> [] ->
   exists table self', analyze_directors self = Ok (table, self')) /\
  ((forall t c, In (t, c) (filter genre_guard (top_genres rows)) ->
                Re.supported t = true) ->
   exists lines, genre_lines rows = Ok lines).
Proof.
  intros Hdf. split; [apply top_ranking|]. split; [apply top_ranking|].
  split; [|split; [|split;
    [now apply analyze_directors_total|apply genre_lines_total]]].
  - intros table self' H.
    destruct (analyze_directors_inv _ _ _ _ Hdf H) as [Ht _].
    apply director_table_keys in Ht.
    assert (forall t c, In (t, c) (map director_key table)
                        <-> In (t, c) (top_directors rows) /\ t <> "" /\ 5 <= c)
      as K.
    { intros t c. rewrite Ht, filter_In, director_guard_iff. reflexivity. }
    split; [exact K|]. split.
    + intros t Hne Hin. apply K. repeat split; [assumption..|lia].
    + intros t Hin. apply K in Hin. lia.
  - intros lines H t c. apply genre_lines_keys in H.
    rewrite H, filter_In. unfold genre_guard. simpl.
    now rewrite truthy_nonempty.
Qed.

Lemma token_tables_selection_witness :
  In ("Nolan", 5)
     (map director_key
        [mkdirector "Nolan" 5 (rat (43 # 5)) (sqrt_of (13 # 10))
           (mkdate 2021 7 30);
         mkdirector "C." 5 (rat (43 # 5)) (sqrt_of (13 # 10))
           (mkdate 2021 7 30)]).
Proof.
  destruct (token_tables_selection
              (Sample.loaded Sample.five_nolan Sample.clock)
              (map (load_row Sample.clock) Sample.five_nolan) eq_refl)
    as (_ & _ & H & _).
  destruct (H _ _ eq_refl) as (_ & K & _).
  apply K; [discriminate|left; reflexivity].
Defined.

(** C3, as stated, fails: the comma inside ["Nolan, C."] is a delimiter, so
    five records with that cell give the tokens ["Nolan"] and ["C."], each
    counted 5; no row of the table is named ["Nolan, C."]. *)
Lemma nolan_cell_is_split :
  exists table self',
    analyze_directors (Sample.loaded Sample.five_nolan Sample.clock)
    = Ok (table, self') /\
    map director_key table = [("Nolan", 5); ("C.", 5)] /\
    ~ (exists d, In d table /\ Director d = "Nolan, C.").
Proof.
  eexists; eexists; split; [reflexivity|]. split; [reflexivity|].
  intros (d & [<-|[<-|[]]] & E); discriminate.
Qed.

(** C3, amended: when the directors cell is ["Nolan, C."] on each of the
    five records of a frame, the director table is built and has two rows,
    for the tokens ["Nolan"] and ["C."], each with count 5. *)
Theorem nolan_tokens_enter_table {engine : Re.Engine}
  (table : list Csv.title) (now : date) :
  map Csv.Directors table = repeat (Some "Nolan, C.") 5 ->
  exists rows self',
    analyze_directors (Sample.loaded table now) = Ok (rows, self') /\
    map director_key rows = [("Nolan", 5); ("C.", 5)].
Proof.
  intros Hcol. set (frame := map (load_row now) table).
  assert (map Directors frame = repeat (Some "Nolan, C.") 5) as Hd.
  { unfold frame. rewrite map_map. exact Hcol. }
  assert (top_directors frame = [("Nolan", 5); ("C.", 5)]) as Htop.
  { unfold top_directors. rewrite Hd. reflexivity. }
  destruct (director_table_total frame) as (rows & Hrows).
  { rewrite Htop. intros t c [E|[E|[]]]; injection E as <- <-; reflexivity. }
  pose proof (director_table_keys _ _ Hrows) as Hk. rewrite Htop in Hk.
  change (filter director_guard [("Nolan", 5); ("C.", 5)])
    with [("Nolan", 5); ("C.", 5)] in Hk.
  unfold analyze_directors, get_df, Sample.loaded. cbn [df].
  fold frame. simpl rbind. rewrite Hrows. simpl rbind.
  destruct rows as [|r rows]; [discriminate|]. simpl rbind.
  eexists; eexists; split; [reflexivity|exact Hk].
Qed.

Lemma nolan_tokens_enter_table_witness :
  exists rows self',
    analyze_directors (Sample.loaded Sample.five_nolan Sample.clock)
    = Ok (rows, self') /\
    map director_key rows = [("Nolan", 5); ("C.", 5)].
Proof.
  apply (nolan_tokens_enter_table Sample.five_nolan Sample.clock).
  reflexivity.
Defined.

(** C5, as stated, fails: the sample of a token is taken by searching the
    raw cell for it, not by comparing tokens.  With five titles by ["Ann"]
    rated 8 and one by ["Anna"] rated 2, the row of ["Ann"] has count 5 but
    its mean, 7, is over six records; over the five that list the token it
    would be 8. *)
Lemma token_sample_wider_than_listing :
  let rows := map (load_row Sample.clock) Sample.ann_and_anna in
  exists d self',
    analyze_directors (Sample.loaded Sample.ann_and_anna Sample.clock)
    = Ok ([d], self') /\
    Director d = "Ann" /\ Director_Count d = 5 /\
    Avg_Rating d = rat 7 /\
    mean (map Your_Rating (filter (lists Directors "Ann") rows)) = rat 8 /\
    len (filter (lists Directors "Ann") rows) = 5 /\
    len (filter (matches Directors "Ann") rows) = 6.
Proof. eexists; eexists; repeat split. Qed.

(** C5, amended: for every row of the director table, the mean, the
    deviation and the latest date are computed over exactly the records in
    whose raw directors cell [re.search] finds the token, taken as a regular
    expression; for every printed genre line so is the mean.  When the token
    is made of literal characters and full stops, that sample holds every
    record whose cell lists the token; when it has no metacharacter at all,
    the sample is the set of records whose cell has the token as a
    substring, so it may hold records that list a longer name only.  When
    the token holds another metacharacter, the sample is what the compiled
    expression finds, and nothing is said of the records that list the
    token. *)
Theorem token_sample_is_search {engine : Re.Engine} (self : IMDbAnalyzer)
  (rows : list row) :
  df self = Some rows ->
  (forall table self' d,
     analyze_directors self = Ok (table, self') -> In d table ->
     let works := filter (picks Directors (Director d)) rows in
     Avg_Rating d = mean (map Your_Rating works) /\
     Std_Rating d = std (map Your_Rating works) /\
     max_date (map Date_Rated works) = Some (Latest_Work d) /\
     (Re.supported (Director d) = true ->
      (forall r, In r works <->
                 In r rows /\
                 exists s, Directors r = Some s /\
                           Re.search (Director d) s = true) /\
      (forall r, In r rows -> lists Directors (Director d) r = true ->
                 In r works)) /\
     (Re.literal (Director d) = true ->
      forall r, In r works <->
                In r rows /\
                exists s, Directors r = Some s /\
                          Str.contains (Director d) s = true) /\
     (Re.supported (Director d) = false ->
      Re.compiles (Director d) = true /\
      forall r, In r works <->
                In r rows /\
                exists s, Directors r = Some s /\
                          Re.found (Director d) s = true)) /\
  (forall lines l,
     genre_lines rows = Ok lines -> In l lines ->
     let works := filter (picks Genres (Genre l)) rows in
     Genre_Avg_Rating l = mean (map Your_Rating works) /\
     (Re.supported (Genre l) = true ->
      (forall r, In r works <->
                 In r rows /\
                 exists s, Genres r = Some s /\
                           Re.search (Genre l) s = true) /\
      (forall r, In r rows -> lists Genres (Genre l) r = true ->
                 In r works)) /\
     (Re.literal (Genre l) = true ->
      forall r, In r works <->
                In r rows /\
                exists s, Genres r = Some s /\
                          Str.contains (Genre l) s = true) /\
     (Re.supported (Genre l) = false ->
      Re.compiles (Genre l) = true /\
      forall r, In r works <->
                In r rows /\
                exists s, Genres r = Some s /\
                          Re.found (Genre l) s = true)).
Proof.
  intros Hdf.
  assert (forall column t r,
            In r (filter (picks column t) rows) <->
            In r rows /\
            exists s, column r = Some s /\
                      (if Re.supported t then Re.search t s
                       else Re.found t s) = true) as Hpick.
  { intros column t r. rewrite filter_In. unfold picks.
    split; intros [Hr H]; (split; [exact Hr|]).
    - destruct (column r) as [s|]; [eauto|discriminate].
    - now destruct H as (s & -> & H). }
  assert (forall column t,
            Re.supported t = true ->
            (forall r, In r (filter (picks column t) rows) <->
                       In r rows /\
                       exists s, column r = Some s /\
                                 Re.search t s = true) /\
            (forall r, In r rows -> lists column t r = true ->
                       In r (filter (picks column t) rows))) as Hfrag.
  { intros column t Hs. split.
    - intros r. rewrite Hpick, Hs. reflexivity.
    - intros r Hr Hl. apply filter_In. split; [exact Hr|].
      rewrite picks_supported by exact Hs.
      now apply listed_token_matches, lists_In. }
  assert (forall column t,
            Re.literal t = true ->
            forall r, In r (filter (picks column t) rows) <->
                      In r rows /\
                      exists s, column r = Some s /\
                                Str.contains t s = true) as Hlit.
  { intros column t Ht r.
    rewrite Hpick, (ReFacts.literal_supported _ Ht).
    split; intros (Hr & s & Hc & Hf); (split; [exact Hr|]); exists s;
      (split; [exact Hc|]).
    - now rewrite <- ReFacts.search_literal.
    - now rewrite ReFacts.search_literal. }
  assert (forall column t,
            Re.supported t || Re.compiles t = true ->
            Re.supported t = false ->
            Re.compiles t = true /\
            forall r, In r (filter (picks column t) rows) <->
                      In r rows /\
                      exists s, column r = Some s /\
                                Re.found t s = true) as Hout.
  { intros column t Hc Hs. rewrite Hs in Hc. split; [exact Hc|].
    intros r. rewrite Hpick, Hs. reflexivity. }
  split.
  - intros table self' d H Hd.
    destruct (analyze_directors_inv _ _ _ _ Hdf H) as [Ht _].
    unfold director_table in Ht. apply mapM_Ok_Forall2 in Ht.
    assert (exists e, director_entry rows e = Ok d) as ([t c] & He).
    { clear -Ht Hd. induction Ht as [|e d' es ds He _ IH]; [destruct Hd|].
      destruct Hd as [->|Hd]; eauto. }
    apply director_entry_spec in He as (Hc & <- & _ & Ha & Hs & Hm).
    cbv zeta. split; [exact Ha|]. split; [exact Hs|]. split; [exact Hm|].
    split; [apply Hfrag|]. split; [apply Hlit|now apply Hout].
  - intros lines l H Hl.
    unfold genre_lines in H. apply mapM_Ok_Forall2 in H.
    assert (exists e, genre_entry rows e = Ok l) as ([t c] & He).
    { clear -H Hl. induction H as [|e l' es ls He _ IH]; [destruct Hl|].
      destruct Hl as [->|Hl]; eauto. }
    apply genre_entry_spec in He as (Hc & <- & _ & Ha & _).
    cbv zeta. split; [exact Ha|].
    split; [apply Hfrag|]. split; [apply Hlit|now apply Hout].
Qed.

Lemma token_sample_is_search_witness :
  Avg_Rating (mkdirector "Ann" 5 (rat 7) (sqrt_of 6) (mkdate 2022 1 1))
  = mean (map Your_Rating
            (filter (picks Directors "Ann")
               (map (load_row Sample.clock) Sample.ann_and_anna))).
Proof.
  destruct (token_sample_is_search
              (Sample.loaded Sample.ann_and_anna Sample.clock)
              (map (load_row Sample.clock) Sample.ann_and_anna) eq_refl)
    as (H & _).
  destruct (H _ _ (mkdirector "Ann" 5 (rat 7) (sqrt_of 6) (mkdate 2022 1 1))
              eq_refl (or_introl eq_refl)) as (K & _).
  exact K.
Defined.

(** ** Correlation and insights *)



(** An absent platform rating is left out of the sample; read as 0 it would
    change the coefficient. *)
Lemma absent_is_not_zero :
  corr [9; 7; 9; 1] [Some (17 # 2); Some 7%Q; Some 9%Q; None]
  = corr [9; 7; 9] [Some (17 # 2); Some 7%Q; Some 9%Q] /\
  corr [9; 7; 9; 1] [Some (17 # 2); Some 7%Q; Some 9%Q; None]
  <> corr [9; 7; 9; 1] [Some (17 # 2); Some 7%Q; Some 9%Q; Some 0%Q].
Proof. split; [reflexivity|vm_compute; discriminate]. Qed.

Lemma mean_not_nan (xs : list Z) :
  xs <> [] -> is_nan (round2 (mean xs)) = false.
Proof. destruct xs; [congruence|reflexivity]. Qed.

Lemma yearly_avg_not_nan (rows : list row) (y : yearly_row) :
  In y (yearly_table rows) -> is_nan (Avg_Your_Rating y) = false.
Proof.
  intros (yr & Hyr & ->)%yearly_table_In. unfold yearly_agg.
  cbn [Avg_Your_Rating]. apply mean_not_nan.
  apply in_map_iff in Hyr as (r & Hr & Hin).
  assert (In r (yearly_group rows yr)) as I.
  { apply filter_In. split; [exact Hin|]. now apply Z.eqb_eq. }
  intros E. apply (in_map Your_Rating) in I. now rewrite E in I.
Qed.

Lemma yearly_table_not_nil (rows : list row) :
  rows <> [] -> yearly_table rows <> [].
Proof.
  destruct rows as [|r rows]; [congruence|]. intros _ E.
  assert (In (Rating_Year r) (sorted_unique (map Rating_Year (r :: rows))))
    as I by (apply sorted_unique_In; now left).
  apply (in_map (yearly_agg (r :: rows))) in I.
  fold (yearly_table (r :: rows)) in I. now rewrite E in I.
Qed.

(** After the rollup, [generate_insights] returns on a frame with rows. *)
Lemma generate_insights_returns (self : IMDbAnalyzer) (rows : list row) :
  df self = Some rows -> rows <> [] ->
  yearly_stats self = Some (yearly_table rows) ->
  exists ins,
    generate_insights self = Ok (ins, self) /\
    insight_correlation ins
    = corr (map Your_Rating rows) (map IMDb_Rating rows).
Proof.
  intros Hdf Hne Hy. unfold generate_insights.
  destruct (basic_statistics_returns self rows Hdf Hne) as (m & _ & ->).
  simpl rbind. unfold get_df. rewrite Hdf. simpl rbind.
  assert (len rows <> 0) as Hlen by (intros E; apply len_zero in E; auto).
  destruct (percent_Ok (count_where (fun r => 7 <=? Your_Rating r) rows) _
              Hlen) as (q & ->).
  simpl rbind. rewrite Hy. simpl rbind.
  pose proof (yearly_table_not_nil rows Hne) as Hnn.
  destruct (idxmax_Some Z.gtb
              (map (fun y => (Rating_Year_index y, Count y))
                 (yearly_table rows))) as ([v ?] & -> & _).
  { destruct (yearly_table rows); [congruence|discriminate]. }
  simpl rbind.
  destruct (idxmax_Some rat_gtb
              (filter (fun p => negb (is_nan (snd p)))
                 (map (fun y => (Rating_Year_index y, Avg_Your_Rating y))
                    (yearly_table rows)))) as ([w ?] & -> & _).
  { destruct (yearly_table rows) as [|y ys] eqn:E; [congruence|].
    simpl. rewrite (yearly_avg_not_nan rows y); [discriminate|].
    rewrite E. now left. }
  simpl rbind. eexists; split; reflexivity.
Qed.







(** On the three rated records of the example the coefficient is
    [7 / sqrt 52], about 0.97; the fourth record, unrated by the platform,
    does not enter. *)
Lemma correlation_example :
  corr (map Your_Rating (map (load_row Sample.clock) Sample.partly_rated))
    (map IMDb_Rating (map (load_row Sample.clock) Sample.partly_rated))
  = div_sqrt 7 52 /\
  alignment_label (div_sqrt 7 52) = "Strong".
Proof. split; reflexivity. Qed.

Lemma yearly_rollup_example_witness :
  Std_Your_Rating
    (yearly_agg (map (load_row Sample.clock) Sample.five_nolan) 2020)
  = nan.
Proof.
  destruct (yearly_rollup_example "Movie" "Movie" "Movie" None None None
              None None None None None None Sample.clock) as (_ & H).
  destruct (H (Sample.loaded Sample.five_nolan Sample.clock)
              (map (load_row Sample.clock) Sample.five_nolan) eq_refl)
    as (self' & _ & K).
  apply K; [right; left; reflexivity|reflexivity].
Defined.

(** * Further properties of the analyzer *)

(** ** Value counts *)

Lemma vc_count_vc_add (k x : Z) (l : list (Z * Z)) :
  vc_count k (vc_add x l) = vc_count k l + (if x =? k then 1 else 0).
Proof.
  induction l as [|[k' n] l IH]; simpl.
  - destruct (x =? k); lia.
  - destruct (Z.ltb_spec x k'); simpl.
    + destruct (x =? k); lia.
    + destruct (Z.eqb_spec x k'); simpl.
      * subst k'. destruct (x =? k); lia.
      * rewrite IH. lia.
Qed.

Lemma vc_count_gen (k : Z) (xs : list Z) (acc : list (Z * Z)) :
  vc_count k (fold_left (fun l x => vc_add x l) xs acc)
  = vc_count k acc + occZ k xs.
Proof.
  revert acc; induction xs as [|x xs IH]; intros acc; simpl; [lia|].
  rewrite IH, vc_count_vc_add. lia.
Qed.

Lemma vc_add_sorted (x : Z) (l : list (Z * Z)) :
  StronglySorted Z.lt (map fst l) ->
  StronglySorted Z.lt (map fst (vc_add x l)).
Proof.
  induction l as [|[k n] l IH]; simpl; intros S.
  - repeat constructor.
  - inversion S as [|? ? S' F]; subst.
    destruct (Z.ltb_spec x k); simpl.
    + constructor; [exact S|]. constructor; [exact H|].
      eapply Forall_impl; [|exact F]. intros a Ha. simpl in Ha. lia.
    + destruct (Z.eqb_spec x k); simpl.
      * now constructor.
      * constructor; [auto|]. apply Forall_forall. intros a Ha.
        apply vc_add_keys in Ha as [->|Ha]; [lia|].
        rewrite Forall_forall in F. auto.
Qed.

Lemma value_counts_sorted_gen (xs : list Z) (acc : list (Z * Z)) :
  StronglySorted Z.lt (map fst acc) ->
  StronglySorted Z.lt (map fst (fold_left (fun l x => vc_add x l) xs acc)).
Proof.
  revert acc; induction xs as [|x xs IH]; intros acc S; simpl; [exact S|].
  apply IH, vc_add_sorted, S.
Qed.

Lemma sorted_unique_sorted (xs : list Z) :
  StronglySorted Z.lt (sorted_unique xs).
Proof.
  unfold sorted_unique, value_counts_sort_index.
  apply value_counts_sorted_gen. constructor.
Qed.

Lemma strictly_sorted_NoDup (ks : list Z) :
  StronglySorted Z.lt ks -> NoDup ks.
Proof.
  induction 1 as [|k ks S IH F]; constructor; [|exact IH].
  intros I. rewrite Forall_forall in F. specialize (F _ I). lia.
Qed.

Lemma vc_count_entry (k n : Z) (l : list (Z * Z)) :
  NoDup (map fst l) -> In (k, n) l -> vc_count k l = n.
Proof.
  induction l as [|[k' m] l IH]; simpl; intros ND; [intros []|].
  inversion ND as [|? ? Hk ND']; subst. intros [E|H].
  - injection E as -> ->. rewrite Z.eqb_refl.
    assert (vc_count k l = 0); [|lia].
    clear -Hk. induction l as [|[k' m] l IH]; simpl in *; [reflexivity|].
    destruct (Z.eqb_spec k' k); [tauto|]. rewrite IH; [lia|tauto].
  - destruct (Z.eqb_spec k' k).
    + subst k'. exfalso. apply Hk. apply (in_map fst) in H. exact H.
    + rewrite (IH ND' H). lia.
Qed.

(** Every entry of the value counts holds the number of occurrences of its
    value. *)
Lemma value_counts_entry (xs : list Z) (k n : Z) :
  In (k, n) (value_counts_sort_index xs) -> n = occZ k xs.
Proof.
  intros H.
  assert (NoDup (map fst (value_counts_sort_index xs))) as ND
      by apply strictly_sorted_NoDup, sorted_unique_sorted.
  rewrite <- (vc_count_entry k n _ ND H).
  unfold value_counts_sort_index. rewrite vc_count_gen. simpl. lia.
Qed.

Lemma value_counts_as_map (xs : list Z) :
  value_counts_sort_index xs
  = map (fun k => (k, occZ k xs)) (sorted_unique xs).
Proof.
  unfold sorted_unique. rewrite map_map.
  rewrite <- (map_id (value_counts_sort_index xs)) at 1.
  apply map_ext_in. intros [k n] H. simpl.
  now rewrite <- (value_counts_entry xs k n H).
Qed.

Lemma occZ_map (f : row -> Z) (k : Z) (rows : list row) :
  occZ k (map f rows) = count_where (fun r => f r =? k) rows.
Proof.
  induction rows as [|r rows IH]; [reflexivity|].
  rewrite count_where_cons. simpl. now rewrite IH.
Qed.

Lemma occZ_pos (k : Z) (xs : list Z) : In k xs -> 1 <= occZ k xs.
Proof.
  induction xs as [|x xs IH]; [intros []|]. simpl.
  assert (0 <= occZ k xs) by (clear; induction xs; simpl;
                              [lia|destruct (_ =? _); lia]).
  intros [->|H']; [rewrite Z.eqb_refl; lia|].
  specialize (IH H'). destruct (x =? k); lia.
Qed.

(** Over a duplicate-free list of keys that holds its key, every row is
    counted once. *)
Lemma indicator_sum (x : Z) (ks : list Z) :
  NoDup ks -> In x ks ->
  sumZ (map (fun k => if x =? k then 1 else 0) ks) = 1.
Proof.
  induction 1 as [|k ks Hk ND IH]; [intros []|]. simpl.
  intros [->|H].
  - rewrite Z.eqb_refl.
    assert (sumZ (map (fun k => if x =? k then 1 else 0) ks) = 0); [|lia].
    clear -Hk. induction ks as [|k ks IH]; [reflexivity|]. simpl in *.
    destruct (Z.eqb_spec x k); [subst; tauto|]. rewrite IH; tauto.
  - destruct (Z.eqb_spec x k); [subst; tauto|]. now rewrite IH.
Qed.

Lemma partition_sum (f : row -> Z) (ks : list Z) (rows : list row) :
  NoDup ks -> (forall r, In r rows -> In (f r) ks) ->
  sumZ (map (fun k => count_where (fun r => f r =? k) rows) ks) = len rows.
Proof.
  intros ND. induction rows as [|r rows IH]; intros H.
  - unfold count_where, len. simpl. clear. induction ks; simpl; lia.
  - rewrite len_cons, <- IH by (intros; apply H; now right).
    rewrite <- (indicator_sum (f r) ks ND (H r (or_introl eq_refl))).
    clear. induction ks as [|k ks IHk]; [reflexivity|]. simpl.
    rewrite count_where_cons, IHk. lia.
Qed.

(** ** The yearly rollup, continued *)

Lemma yearly_evolution_inv (self : IMDbAnalyzer) (rows : list row)
  (table : list yearly_row) (self' : IMDbAnalyzer) :
  df self = Some rows ->
  yearly_evolution self = Ok (table, self') ->
  table = yearly_table rows /\
  self' = mkanalyzer (df self) (df_Age_Group self) (Some table)
            (director_analysis self).
Proof.
  intros Hdf. unfold yearly_evolution, get_df. rewrite Hdf. simpl rbind.
  intros E; injection E as <- <-. now split.
Qed.

Lemma yearly_counts_sum (rows : list row) :
  sumZ (map Count (yearly_table rows)) = len rows.
Proof.
  unfold yearly_table. rewrite map_map.
  rewrite <- (partition_sum Rating_Year
                (sorted_unique (map Rating_Year rows)) rows).
  - reflexivity.
  - apply strictly_sorted_NoDup, sorted_unique_sorted.
  - intros r Hr. apply sorted_unique_In. now apply in_map.
Qed.

(** X1: the counts of the yearly rollup add up to the number of rows of the
    frame: every record is counted in the group of its rating year and in no
    other. *)
Theorem yearly_counts_partition (self : IMDbAnalyzer) (rows : list row)
  (table : list yearly_row) (self' : IMDbAnalyzer) :
  df self = Some rows ->
  yearly_evolution self = Ok (table, self') ->
  sumZ (map Count table) = len rows /\
  forall y, In y table ->
            Count y = count_where (rated_in (Rating_Year_index y)) rows.
Proof.
  intros Hdf H. destruct (yearly_evolution_inv _ _ _ _ Hdf H) as [-> _].
  split; [apply yearly_counts_sum|].
  intros y (yr & _ & ->)%yearly_table_In. reflexivity.
Qed.

Lemma yearly_counts_partition_witness :
  sumZ (map Count
          (yearly_table (map (load_row Sample.clock) Sample.five_nolan)))
  = 5.
Proof.
  destruct (yearly_counts_partition
              (Sample.loaded Sample.five_nolan Sample.clock) _ _ _
              eq_refl eq_refl) as [H _].
  exact H.
Defined.

(** X2: the yearly rollup has one row per rating year present in the frame,
    in strictly ascending order of the year, and no row is empty. *)
Theorem yearly_index_ascending (self : IMDbAnalyzer) (rows : list row)
  (table : list yearly_row) (self' : IMDbAnalyzer) :
  df self = Some rows ->
  yearly_evolution self = Ok (table, self') ->
  StronglySorted Z.lt (map Rating_Year_index table) /\
  (forall yr, In yr (map Rating_Year_index table)
              <-> exists r, In r rows /\ Rating_Year r = yr) /\
  (forall y, In y table -> 1 <= Count y).
Proof.
  intros Hdf H. destruct (yearly_evolution_inv _ _ _ _ Hdf H) as [-> _].
  assert (map Rating_Year_index (yearly_table rows)
          = sorted_unique (map Rating_Year rows)) as E.
  { unfold yearly_table. rewrite map_map. apply map_id. }
  rewrite E. split; [apply sorted_unique_sorted|]. split.
  - intros yr. rewrite sorted_unique_In, in_map_iff.
    split; intros (r & H1 & H2); exists r; tauto.
  - intros y (yr & Hyr & ->)%yearly_table_In. unfold yearly_agg.
    cbn [Count]. unfold yearly_group.
    change (len (filter (fun r => Rating_Year r =? yr) rows))
      with (count_where (fun r => Rating_Year r =? yr) rows).
    rewrite <- occZ_map. now apply occZ_pos.
Qed.

Lemma yearly_index_ascending_witness :
  StronglySorted Z.lt
    (map Rating_Year_index
       (yearly_table (map (load_row Sample.clock) Sample.five_nolan))).
Proof.
  destruct (yearly_index_ascending
              (Sample.loaded Sample.five_nolan Sample.clock) _ _ _
              eq_refl eq_refl) as [H _].
  exact H.
Defined.

(** ** The rating distribution *)

Lemma rating_dist_In (rows : list row) (v n : Z) :
  In (v, n) (rating_dist rows)
  <-> n = count_where (rated v) rows /\ 1 <= n.
Proof.
  unfold rating_dist. rewrite value_counts_as_map, in_map_iff. split.
  - intros (k & E & Hk). injection E as -> <-.
    apply (proj1 (sorted_unique_In _ _)) in Hk. split.
    + apply occZ_map.
    + now apply occZ_pos.
  - intros [-> Hn]. exists v. split.
    + f_equal. apply occZ_map.
    + apply sorted_unique_In.
      unfold count_where in Hn.
      destruct (filter (rated v) rows) as [|r l] eqn:E;
        [unfold len in Hn; simpl in Hn; lia|].
      assert (In r (filter (rated v) rows)) as I by (rewrite E; now left).
      apply filter_In in I as [I1 I2]. apply Z.eqb_eq in I2.
      rewrite <- I2. now apply in_map.
Qed.

Lemma rating_dist_sum (rows : list row) :
  sumZ (map snd (rating_dist rows)) = len rows.
Proof.
  unfold rating_dist. rewrite value_counts_as_map, map_map. simpl.
  rewrite <- (partition_sum Your_Rating
                (sorted_unique (map Your_Rating rows)) rows).
  - f_equal. apply map_ext. intros k. apply occZ_map.
  - apply strictly_sorted_NoDup, sorted_unique_sorted.
  - intros r Hr. apply sorted_unique_In. now apply in_map.
Qed.

Lemma rating_summary_returns (rows : list row) :
  rows <> [] -> exists rep, rating_summary rows = Ok rep.
Proof.
  intros Hne. unfold rating_summary.
  assert (len rows <> 0) as Hlen by (intros E; apply len_zero in E; auto).
  destruct (mapM_total
              (fun rc : Z * Z =>
                 let* p := percent (snd rc) (len rows) in Ok (rc, p))
              (rating_dist rows)) as (lines & ->).
  { intros rc _. destruct (percent_Ok (snd rc) _ Hlen) as (q & ->).
    simpl. eauto. }
  simpl rbind.
  destruct (percent_Ok (count_where (fun r => 8 <=? Your_Rating r) rows) _
              Hlen) as (hp & ->).
  destruct (percent_Ok (count_where (fun r => Your_Rating r <=? 5) rows) _
              Hlen) as (lp & ->).
  simpl. eauto.
Qed.

(** X3: on a frame with rows [rating_patterns] returns the distribution of
    the ratings given: the ratings in strictly ascending order, each one that
    occurs with the number of rows that carry it, the counts adding up to
    the number of rows; the analyzer is left as it was. *)
Theorem rating_distribution_counts (self : IMDbAnalyzer) (rows : list row) :
  df self = Some rows -> rows <> [] ->
  exists dist,
    rating_patterns self = Ok (dist, self) /\
    StronglySorted Z.lt (map fst dist) /\
    (forall v n, In (v, n) dist
                 <-> n = count_where (rated v) rows /\ 1 <= n) /\
    sumZ (map snd dist) = len rows.
Proof.
  intros Hdf Hne. unfold rating_patterns, get_df. rewrite Hdf. simpl rbind.
  destruct (rating_summary_returns rows Hne) as (rep & ->). simpl rbind.
  eexists; split; [reflexivity|]. split; [|split].
  - apply (sorted_unique_sorted (map Your_Rating rows)).
  - apply rating_dist_In.
  - apply rating_dist_sum.
Qed.

Lemma rating_distribution_counts_witness :
  exists dist,
    rating_patterns (Sample.loaded Sample.five_nolan Sample.clock)
    = Ok (dist, Sample.loaded Sample.five_nolan Sample.clock) /\
    sumZ (map snd dist) = 5.
Proof.
  destruct (rating_distribution_counts
              (Sample.loaded Sample.five_nolan Sample.clock) _
              eq_refl ltac:(discriminate)) as (dist & H1 & _ & _ & H4).
  exists dist. split; [exact H1|exact H4].
Defined.

Lemma percent_inv (a b : Z) (q : Q) :
  percent a b = Ok q ->
  b <> 0 /\ (q == inject_Z a * 100 / inject_Z b)%Q.
Proof.
  unfold percent. destruct (Z.eqb_spec b 0); [discriminate|].
  intros E.
  assert (q = Qred (inject_Z (a * 100) / inject_Z b)%Q) as -> by congruence.
  split; [assumption|].
  transitivity (inject_Z (a * 100) / inject_Z b)%Q; [apply Qred_correct|].
  rewrite inject_Z_mult. reflexivity.
Qed.

Lemma percent_lines_sum (n : Z) (l : list (Z * Z))
  (lines : list (Z * Z * Q)) :
  n <> 0 ->
  mapM (fun rc : Z * Z => let* p := percent (snd rc) n in Ok (rc, p)) l
  = Ok lines ->
  map fst lines = l /\
  (sumQ (map snd lines) == inject_Z (sumZ (map snd l)) * 100 / inject_Z n)%Q.
Proof.
  intros Hn H. apply mapM_Ok_Forall2 in H.
  assert (~ (inject_Z n == 0)%Q) as Hq.
  { intros E. apply Hn. unfold Qeq in E. simpl in E. lia. }
  induction H as [|rc line l lines Hl _ [IH1 IH2]].
  - split; [reflexivity|]. simpl. field. exact Hq.
  - destruct (percent (snd rc) n) as [p|] eqn:Ep; [|discriminate].
    simpl in Hl. injection Hl as <-.
    apply percent_inv in Ep as [_ Ep].
    split; [simpl; now rewrite IH1|].
    simpl. rewrite IH2, Ep, inject_Z_plus. field. exact Hq.
Qed.

Lemma exclusive_counts (p q : row -> bool) (rows : list row) :
  (forall r, p r = true -> q r = false) ->
  count_where p rows + count_where q rows <= len rows.
Proof.
  intros X. induction rows as [|r rows IH]; [unfold count_where, len; simpl; lia|].
  rewrite !count_where_cons, len_cons.
  destruct (p r) eqn:E; [rewrite (X r E); lia|destruct (q r); lia].
Qed.

(** X4: when [rating_patterns] gets to print its summary, the frame has
    rows, the printed lines follow the distribution, their percentages add
    up to exactly 100, and the band of high ratings (8 and above) and the
    band of low ratings (5 and below) share no row: together they hold at
    most the whole frame. *)
Theorem rating_percentages_total (rows : list row) (rep : rating_report) :
  rating_summary rows = Ok rep ->
  rows <> [] /\
  map fst (dist_percentages rep) = rating_dist rows /\
  (sumQ (map snd (dist_percentages rep)) == 100)%Q /\
  high_ratings rep + low_ratings rep <= len rows /\
  (high_percentage rep + low_percentage rep <= 100)%Q.
Proof.
  unfold rating_summary.
  destruct (mapM _ (rating_dist rows)) as [lines|] eqn:El; [|discriminate].
  simpl rbind.
  destruct (percent (count_where (fun r => 8 <=? Your_Rating r) rows)
              (len rows)) as [hp|] eqn:Eh; [|discriminate].
  simpl rbind.
  destruct (percent (count_where (fun r => Your_Rating r <=? 5) rows)
              (len rows)) as [lp|] eqn:Elow; [|discriminate].
  simpl rbind. intros E; injection E as <-.
  cbn [dist_percentages high_ratings low_ratings high_percentage
         low_percentage].
  apply percent_inv in Eh as [Hn Eh]. apply percent_inv in Elow as [_ Elow].
  destruct (percent_lines_sum _ _ _ Hn El) as [L1 L2].
  assert (~ (inject_Z (len rows) == 0)%Q) as Hq.
  { intros E. apply Hn. unfold Qeq in E. simpl in E. lia. }
  assert (count_where (fun r => 8 <=? Your_Rating r) rows
          + count_where (fun r => Your_Rating r <=? 5) rows <= len rows)
    as Hband.
  { apply exclusive_counts. intros r. rewrite Z.leb_le, Z.leb_gt. lia. }
  split; [intros ->; now apply Hn|]. split; [exact L1|]. split; [|split].
  - rewrite L2, rating_dist_sum. field. exact Hq.
  - exact Hband.
  - rewrite Eh, Elow.
    set (h := count_where (fun r => 8 <=? Your_Rating r) rows) in *.
    set (l := count_where (fun r => Your_Rating r <=? 5) rows) in *.
    assert (inject_Z h * 100 / inject_Z (len rows)
            + inject_Z l * 100 / inject_Z (len rows)
            == inject_Z (h + l) * 100 / inject_Z (len rows))%Q as ->
        by (rewrite inject_Z_plus; field; exact Hq).
    apply Qle_shift_div_r.
    + pose proof (len_nonneg rows). unfold Qlt. simpl. lia.
    + rewrite (Qmult_comm 100). apply Qmult_le_compat_r.
      * rewrite <- Zle_Qle. exact Hband.
      * discriminate.
Qed.

Lemma rating_percentages_total_witness :
  exists rep,
    rating_summary (map (load_row Sample.clock) Sample.five_nolan) = Ok rep /\
    (sumQ (map snd (dist_percentages rep)) == 100)%Q.
Proof.
  eexists. split; [reflexivity|].
  destruct (rating_percentages_total
              (map (load_row Sample.clock) Sample.five_nolan) _ eq_refl)
    as (_ & _ & K & _).
  exact K.
Defined.

(** ** Size and keys of the token tables *)

(** Dropping entries of a counter, by a guard or by a cut, keeps its keys
    distinct. *)
Lemma guarded_keys_distinct (guard : string * Z -> bool)
  (c : list (string * Z)) :
  NoDup (map fst c) -> NoDup (map fst (filter guard c)).
Proof.
  intros ND. induction c as [|e c IH]; [constructor|].
  apply NoDup_cons_iff in ND as [Hnew ND]. simpl.
  destruct (guard e); [|now apply IH].
  simpl. apply NoDup_cons; [|now apply IH].
  intros (e' & Hk & He')%in_map_iff. apply Hnew. rewrite <- Hk.
  apply in_map. now apply filter_In in He'.
Qed.

Lemma kept_keys_distinct (n : nat) (ks : list string) :
  NoDup ks -> NoDup (firstn n ks).
Proof.
  revert ks; induction n as [|n IH]; intros ks ND; [constructor|].
  destruct ks as [|k ks]; [constructor|].
  apply NoDup_cons_iff in ND as [Hnew ND]. simpl.
  apply NoDup_cons; [|now apply IH].
  intros I. apply Hnew. eapply In_firstn, I.
Qed.

Lemma Counter_NoDup (l : list string) : NoDup (map fst (Counter l)).
Proof. apply (Counter_keys_gen l [] (NoDup_nil _)). Qed.

Lemma most_common_NoDup (n : nat) (l : list string) :
  NoDup (map fst (most_common n (Counter l))).
Proof.
  unfold most_common. rewrite <- firstn_map. apply kept_keys_distinct.
  eapply Permutation_NoDup; [|apply Counter_NoDup].
  apply Permutation_map, ranking_perm.
Qed.

Lemma most_common_length (n : nat) (c : list (string * Z)) :
  (List.length (most_common n c) <= n)%nat.
Proof. unfold most_common. apply firstn_le_length. Qed.

(** X5: the director table and the genre ranking each hold at most 15
    entries and name no token twice; the director table that
    [analyze_directors] returns is never empty. *)
Theorem token_tables_bounded {engine : Re.Engine}
  (self : IMDbAnalyzer) (rows : list row) :
  df self = Some rows ->
  (forall table self',
     analyze_directors self = Ok (table, self') ->
     (1 <= List.length table <= 15)%nat /\ NoDup (map Director table)) /\
  (forall ranking self',
     analyze_genres self = Ok (ranking, self') ->
     (List.length ranking <= 15)%nat /\ NoDup (map fst ranking)).
Proof.
  intros Hdf. split.
  - intros table self' H.
    destruct (analyze_directors_inv _ _ _ _ Hdf H) as [Ht Hne].
    apply director_table_keys in Ht.
    assert (List.length table
            = List.length (filter director_guard (top_directors rows))) as L
        by (rewrite <- Ht; now rewrite length_map).
    assert (map Director table
            = map fst (filter director_guard (top_directors rows))) as K
        by (rewrite <- Ht, map_map; reflexivity).
    split.
    + split; [destruct table; [congruence|simpl; lia]|].
      rewrite L. etransitivity; [apply filter_length_le|].
      apply most_common_length.
    + rewrite K. apply guarded_keys_distinct, most_common_NoDup.
  - intros ranking self'. unfold analyze_genres, get_df. rewrite Hdf.
    simpl rbind. destruct (genre_lines rows); [|discriminate]. simpl rbind.
    intros E; injection E as <- _. split.
    + apply most_common_length.
    + apply most_common_NoDup.
Qed.

Lemma token_tables_bounded_witness :
  (1 <= List.length
          [mkdirector "Nolan" 5 (rat (43 # 5)) (sqrt_of (13 # 10))
             (mkdate 2021 7 30);
           mkdirector "C." 5 (rat (43 # 5)) (sqrt_of (13 # 10))
             (mkdate 2021 7 30)] <= 15)%nat.
Proof.
  destruct (token_tables_bounded
              (Sample.loaded Sample.five_nolan Sample.clock) _ eq_refl)
    as (H & _).
  destruct (H _ _ eq_refl) as (K & _). exact K.
Defined.

(** ** Token counts and the order of tokens *)

Lemma Counter_In_iff (l : list string) (t : string) (n : Z) :
  In (t, n) (Counter l) <-> n = occurrences t l /\ In t l.
Proof.
  split; [apply Counter_count|]. intros [-> Ht].
  destruct (Counter_keys_gen l [] (NoDup_nil _)) as [_ Hk].
  assert (In t (map fst (Counter l))) as I by (apply Hk; now left).
  apply in_map_iff in I as ([t' n] & E & I). simpl in E. subst t'.
  now rewrite <- (proj1 (Counter_count _ _ _ I)).
Qed.

Lemma occurrences_app (t : string) (l1 l2 : list string) :
  occurrences t (l1 ++ l2) = occurrences t l1 + occurrences t l2.
Proof. induction l1 as [|u l1 IH]; simpl; [reflexivity|]. rewrite IH. lia. Qed.

Lemma occurrences_perm (t : string) (l1 l2 : list string) :
  Permutation l1 l2 -> occurrences t l1 = occurrences t l2.
Proof. induction 1; simpl; lia. Qed.

Lemma token_list_perm (col1 col2 : list (option string)) :
  Forall2 (fun c1 c2 => Permutation (field_tokens c1) (field_tokens c2))
    col1 col2 ->
  Permutation (token_list col1) (token_list col2).
Proof.
  induction 1 as [|c1 c2 col1 col2 Hc _ IH]; [constructor|].
  unfold token_list in *. simpl. now apply Permutation_app.
Qed.

(** X6: the counts do not depend on the order in which a cell lists its
    tokens: two columns whose cells list the same tokens, cell by cell, in
    whatever order, give counters with the same entries. *)
Theorem token_counts_order_free (col1 col2 : list (option string)) :
  Forall2 (fun c1 c2 => Permutation (field_tokens c1) (field_tokens c2))
    col1 col2 ->
  forall t n,
    In (t, n) (Counter (token_list col1))
    <-> In (t, n) (Counter (token_list col2)).
Proof.
  intros H t n. apply token_list_perm in H.
  rewrite !Counter_In_iff, (occurrences_perm t _ _ H).
  split; intros [E I]; (split; [exact E|]).
  - eapply Permutation_in; eauto.
  - eapply Permutation_in; [symmetry|]; eauto.
Qed.

Lemma token_counts_order_free_witness :
  In ("Action", 2)
     (Counter (token_list [Some "Action, Drama"; Some "Action"])).
Proof.
  apply (proj1 (token_counts_order_free
                  [Some "Drama, Action"; Some "Action"]
                  [Some "Action, Drama"; Some "Action"]
                  ltac:(constructor; [apply perm_swap|];
                        constructor; [apply Permutation_refl|constructor])
                  "Action" 2)).
  right; left; reflexivity.
Defined.

(** ** The order of the method calls *)

Lemma analyze_directors_returns {engine : Re.Engine}
  (self : IMDbAnalyzer) (rows : list row)
  (table : list director_row) :
  df self = Some rows -> director_table rows = Ok table -> table <> [] ->
  analyze_directors self
  = Ok (table, mkanalyzer (df self) (df_Age_Group self) (yearly_stats self)
                 (Some table)).
Proof.
  intros Hdf Ht Hne. unfold analyze_directors, get_df. rewrite Hdf.
  simpl rbind. rewrite Ht. simpl rbind.
  destruct table; [congruence|reflexivity].
Qed.

(** X7: [generate_insights] and [create_visualizations] read the yearly
    rollup that [yearly_evolution] stores: on a loaded frame with rows but
    no rollup yet the first raises [TypeError] and the second
    [AttributeError]; once [yearly_evolution] has run, [generate_insights]
    returns and leaves the analyzer as it found it. *)
Theorem insights_need_rollup {engine : Re.Engine}
  (self : IMDbAnalyzer) (rows : list row) :
  df self = Some rows -> rows <> [] ->
  (yearly_stats self = None ->
   generate_insights self = Raise TypeError /\
   create_visualizations self = Raise AttributeError) /\
  (forall table self1,
     yearly_evolution self = Ok (table, self1) ->
     exists ins, generate_insights self1 = Ok (ins, self1)).
Proof.
  intros Hdf Hne. split.
  - intros Hy. split.
    + unfold generate_insights.
      destruct (basic_statistics_returns self rows Hdf Hne) as (m & _ & ->).
      simpl rbind. unfold get_df. rewrite Hdf. simpl rbind.
      assert (len rows <> 0) as Hlen by (intros E; apply len_zero in E; auto).
      destruct (percent_Ok (count_where (fun r => 7 <=? Your_Rating r) rows)
                  _ Hlen) as (q & ->).
      simpl rbind. rewrite Hy. reflexivity.
    + unfold create_visualizations, get_df. rewrite Hdf, Hy. reflexivity.
  - intros table self1 H.
    destruct (yearly_evolution_inv _ _ _ _ Hdf H) as [-> ->].
    destruct (generate_insights_returns
                (mkanalyzer (df self) (df_Age_Group self)
                   (Some (yearly_table rows)) (director_analysis self))
                rows Hdf Hne eq_refl) as (ins & Hi & _).
    eauto.
Qed.

Lemma insights_need_rollup_witness :
  generate_insights (Sample.loaded Sample.five_nolan Sample.clock)
  = Raise TypeError /\
  create_visualizations (Sample.loaded Sample.five_nolan Sample.clock)
  = Raise AttributeError.
Proof.
  destruct (insights_need_rollup
              (Sample.loaded Sample.five_nolan Sample.clock) _
              eq_refl ltac:(discriminate)) as (H & _).
  apply H. reflexivity.
Defined.

(** ** Frames without a qualifying director *)

Lemma no_guarded_director (rows : list row) :
  (forall t, occurrences t (token_list (map Directors rows)) < 5) ->
  filter director_guard (top_directors rows) = [].
Proof.
  intros H. destruct (filter director_guard (top_directors rows))
    as [|[t c] l] eqn:E; [reflexivity|].
  assert (In (t, c) (filter director_guard (top_directors rows))) as I
      by (rewrite E; now left).
  apply filter_In in I as [I G]. apply director_guard_iff in G as [_ G].
  apply ranked_token_listed in I as [-> _]. specialize (H t). lia.
Qed.

(** X8: when no director token occurs five times in the frame, no entry
    passes the guard, the table is empty, and [analyze_directors] raises
    [KeyError] on sorting it; a whole run over such an export, if it has
    a record at all, ends with that [KeyError]. *)
Theorem no_director_with_five_works {engine : Re.Engine}
  (table : list Csv.title) (now : date) :
  table <> [] ->
  (forall t,
     occurrences t
       (token_list (map Directors (map (load_row now) table))) < 5) ->
  analyze_directors (Sample.loaded table now) = Raise KeyError /\
  main table now = Raise KeyError.
Proof.
  intros Hne H. set (rows := map (load_row now) table).
  assert (rows <> []) as Hrows by (destruct table; [congruence|discriminate]).
  assert (director_table rows = Ok []) as Ht
      by (unfold director_table; now rewrite (no_guarded_director rows H)).
  assert (forall ag ys da,
            analyze_directors (mkanalyzer (Some rows) ag ys da)
            = Raise KeyError) as K.
  { intros. unfold analyze_directors, get_df. cbn [df]. simpl rbind.
    rewrite Ht. reflexivity. }
  split; [apply K|].
  unfold main, run_complete_analysis, load_data, init. simpl rbind.
  fold rows.
  destruct (basic_statistics_returns
              (mkanalyzer (Some rows) None None None) rows eq_refl Hrows)
    as (m & _ & ->).
  simpl rbind. unfold yearly_evolution, get_df. cbn [df]. simpl rbind.
  cbn [df df_Age_Group director_analysis]. rewrite K. reflexivity.
Qed.

Lemma no_director_with_five_works_witness :
  main Sample.four_dramas Sample.clock = Raise KeyError.
Proof.
  apply (no_director_with_five_works Sample.four_dramas Sample.clock).
  - discriminate.
  - intros t.
    change (token_list
              (map Directors (map (load_row Sample.clock) Sample.four_dramas)))
      with ["Ann Lee"; "Ann Lee"; "Ann Lee"; "Ann Lee"].
    unfold occurrences. destruct (String.eqb "Ann Lee" t); reflexivity.
Defined.

(** ** First maxima *)

(** [idxmax] picks the first entry that no later entry exceeds and that
    exceeds every earlier one, for a comparison that is asymmetric and whose
    negation is transitive on the values at hand. *)
Lemma idxmax_first_max {K V} (gtb : V -> V -> bool) (ok : V -> Prop)
  (l : list (K * V)) (p : K * V) :
  (forall a b, ok a -> ok b -> gtb a b = true -> gtb b a = false) ->
  (forall a b c, ok a -> ok b -> ok c ->
                 gtb a b = false -> gtb b c = false -> gtb a c = false) ->
  Forall (fun q => ok (snd q)) l ->
  idxmax gtb l = Some p ->
  exists l1 l2,
    l = (l1 ++ p :: l2)%list /\
    (forall q, In q l1 -> gtb (snd p) (snd q) = true) /\
    (forall q, In q l2 -> gtb (snd q) (snd p) = false).
Proof.
  intros Asym Trans. revert p.
  induction l as [|x l IH]; intros p F; [discriminate|].
  inversion F as [|? ? Hx F']; subst. simpl.
  destruct (idxmax gtb l) as [q|] eqn:E.
  - destruct (IH q F' eq_refl) as (l1 & l2 & -> & H1 & H2).
    assert (ok (snd q)) as Hq.
    { rewrite Forall_forall in F'. apply F'. apply in_or_app.
      right; now left. }
    destruct (gtb (snd q) (snd x)) eqn:G; intros P; injection P as <-.
    + exists (x :: l1), l2. split; [reflexivity|]. split; [|exact H2].
      intros q' [<-|I]; auto.
    + exists [], (l1 ++ q :: l2)%list. split; [reflexivity|].
      split; [intros ? []|].
      intros q' I. rewrite Forall_forall in F'. pose proof (F' _ I) as Hq'.
      apply in_app_or in I as [I|[<-|I]].
      * eapply Trans; [| | |apply Asym, H1, I|exact G]; auto.
      * exact G.
      * eapply Trans; [| | |apply H2, I|exact G]; auto.
  - intros P; injection P as <-. destruct l; [|simpl in E].
    + exists [], []. repeat split; intros ? [].
    + destruct (idxmax gtb l); [destruct (gtb _ _)|]; discriminate.
Qed.

Lemma idxmax_Z_first_max {K} (l : list (K * Z)) (p : K * Z) :
  idxmax Z.gtb l = Some p ->
  exists l1 l2,
    l = (l1 ++ p :: l2)%list /\
    (forall q, In q l1 -> snd q < snd p) /\
    (forall q, In q l2 -> snd q <= snd p).
Proof.
  intros H.
  destruct (idxmax_first_max Z.gtb (fun _ => True) l p) as
    (l1 & l2 & E & H1 & H2); auto.
  - intros a b _ _. rewrite Z.gtb_ltb, Z.ltb_lt, Z.gtb_ltb, Z.ltb_ge. lia.
  - intros a b c _ _ _. rewrite !Z.gtb_ltb, !Z.ltb_ge. lia.
  - apply Forall_forall. auto.
  - exists l1, l2. split; [exact E|]. split; intros q I.
    + specialize (H1 q I). rewrite Z.gtb_ltb, Z.ltb_lt in H1. lia.
    + specialize (H2 q I). rewrite Z.gtb_ltb, Z.ltb_ge in H2. lia.
Qed.

Lemma sorted_app_inv (l1 l2 : list Z) (k : Z) :
  StronglySorted Z.lt (l1 ++ k :: l2)%list ->
  (forall a, In a l1 -> a < k) /\ (forall a, In a l2 -> k < a).
Proof.
  induction l1 as [|x l1 IH]; simpl; intros S.
  - inversion S as [|? ? _ F]; subst. rewrite Forall_forall in F.
    split; [intros ? []|auto].
  - inversion S as [|? ? S' F]; subst. destruct (IH S') as [H1 H2].
    split; [|exact H2]. intros a [<-|I]; [|auto].
    rewrite Forall_forall in F. apply F, in_or_app. right; now left.
Qed.

(** X9: the most common rating that [basic_statistics] reports is a rating
    of the frame that no other rating outnumbers, and the smallest such:
    every smaller rating is strictly rarer. *)
Theorem most_common_rating_is_first_mode (self : IMDbAnalyzer)
  (rows : list row) (st : stats) (self' : IMDbAnalyzer) :
  df self = Some rows ->
  basic_statistics self = Ok (st, self') ->
  (exists r, In r rows /\ Your_Rating r = most_common_rating st) /\
  (forall v, count_where (rated v) rows
             <= count_where (rated (most_common_rating st)) rows) /\
  (forall v, v < most_common_rating st ->
             count_where (rated v) rows
             < count_where (rated (most_common_rating st)) rows).
Proof.
  intros Hdf. unfold basic_statistics, get_df. rewrite Hdf. simpl rbind.
  unfold mode_first.
  destruct (idxmax Z.gtb (value_counts_sort_index (map Your_Rating rows)))
    as [[m c]|] eqn:E; [|discriminate].
  simpl rbind.
  destruct (percent _ _); [|discriminate]. simpl rbind.
  destruct (percent _ _); [|discriminate]. simpl rbind.
  destruct (percent _ _); [|discriminate]. simpl rbind.
  intros P; injection P as <- _. cbn [most_common_rating].
  apply idxmax_Z_first_max in E as (l1 & l2 & E & H1 & H2).
  fold (rating_dist rows) in E.
  assert (In (m, c) (rating_dist rows)) as Im
      by (rewrite E; apply in_or_app; right; now left).
  apply rating_dist_In in Im as [Hc Hc1].
  pose proof (sorted_unique_sorted (map Your_Rating rows)) as S.
  unfold sorted_unique in S. fold (rating_dist rows) in S.
  rewrite E, map_app in S. simpl in S.
  apply sorted_app_inv in S as [S1 S2].
  assert (forall v, (count_where (rated v) rows <= c) /\
                    (v < m -> count_where (rated v) rows < c)) as K.
  { intros v.
    destruct (Z_lt_le_dec (count_where (rated v) rows) 1) as [Z0|Pos].
    - pose proof (count_where_bounds (rated v) rows). lia.
    - assert (In (v, count_where (rated v) rows) (rating_dist rows)) as Iv
          by (apply rating_dist_In; split; [reflexivity|lia]).
      rewrite E in Iv. apply in_app_or in Iv as [Iv|[Iv|Iv]].
      + specialize (H1 _ Iv). simpl in H1. lia.
      + injection Iv as <- <-. lia.
      + specialize (H2 _ Iv). simpl in H2.
        apply (in_map fst) in Iv. apply S2 in Iv. simpl in Iv. lia. }
  rewrite <- Hc. split; [|split; intros v; apply K].
  unfold count_where in Hc.
  destruct (filter (rated m) rows) as [|r l] eqn:F;
    [unfold len in Hc; simpl in Hc; lia|].
  assert (In r (filter (rated m) rows)) as I by (rewrite F; now left).
  apply filter_In in I as [I1 I2]. apply Z.eqb_eq in I2. eauto.
Qed.

Lemma most_common_rating_is_first_mode_witness :
  count_where (rated 8) (map (load_row Sample.clock) Sample.five_nolan)
  < count_where (rated 9) (map (load_row Sample.clock) Sample.five_nolan).
Proof.
  destruct (most_common_rating_is_first_mode
              (Sample.loaded Sample.five_nolan Sample.clock) _ _ _
              eq_refl eq_refl) as (_ & _ & H).
  apply (H 8). reflexivity.
Defined.

(** ** Peak years *)

Lemma basic_statistics_inv (self : IMDbAnalyzer) (rows : list row)
  (st : stats) (self' : IMDbAnalyzer) :
  df self = Some rows ->
  basic_statistics self = Ok (st, self') ->
  self' = self /\ rows <> [] /\
  avg_rating st = mean (map Your_Rating rows) /\
  imdb_correlation st = corr (map Your_Rating rows) (map IMDb_Rating rows).
Proof.
  intros Hdf H.
  assert (rows <> []) as Hne.
  { intros ->. unfold basic_statistics, get_df in H. rewrite Hdf in H.
    discriminate. }
  destruct (basic_statistics_returns self rows Hdf Hne) as (m & _ & E).
  rewrite E in H. injection H as <- <-. repeat split. exact Hne.
Qed.

Lemma generate_insights_inv (self : IMDbAnalyzer) (rows : list row)
  (ys : list yearly_row) (ins : insights) (self' : IMDbAnalyzer) :
  df self = Some rows -> yearly_stats self = Some ys ->
  generate_insights self = Ok (ins, self') ->
  self' = self /\ rows <> [] /\
  (exists c,
     idxmax Z.gtb (map (fun y => (Rating_Year_index y, Count y)) ys)
     = Some (peak_volume_year ins, c)) /\
  (exists a,
     idxmax rat_gtb
       (filter (fun p => negb (is_nan (snd p)))
          (map (fun y => (Rating_Year_index y, Avg_Your_Rating y)) ys))
     = Some (peak_quality_year ins, a)) /\
  percent (count_where (fun r => 7 <=? Your_Rating r) rows) (len rows)
  = Ok (insight_generosity ins) /\
  insight_style ins = generosity_style (insight_generosity ins) /\
  insight_avg_rating ins = mean (map Your_Rating rows).
Proof.
  intros Hdf Hy. unfold generate_insights.
  destruct (basic_statistics self) as [[st s1]|] eqn:Eb; [|discriminate].
  destruct (basic_statistics_inv _ _ _ _ Hdf Eb) as (-> & Hne & Ha & _).
  simpl rbind. unfold get_df. rewrite Hdf. simpl rbind.
  destruct (percent _ _) as [g|] eqn:Eg; [|discriminate]. simpl rbind.
  rewrite Hy. simpl rbind.
  destruct (idxmax Z.gtb _) as [[v c]|] eqn:Ev; [|discriminate].
  simpl rbind.
  destruct (idxmax rat_gtb _) as [[w a]|] eqn:Ew; [|discriminate].
  simpl rbind. intros P; injection P as <- <-.
  cbn [peak_volume_year peak_quality_year insight_generosity insight_style
         insight_avg_rating].
  repeat split; eauto.
Qed.

Lemma yearly_index_map (rows : list row) :
  map Rating_Year_index (yearly_table rows)
  = sorted_unique (map Rating_Year rows).
Proof. unfold yearly_table. rewrite map_map. apply map_id. Qed.

(** X10: after the rollup, the peak-volume year that [generate_insights]
    reports is a year of the rollup whose count no other year exceeds, and
    the earliest such year. *)
Theorem peak_volume_year_is_first_max (self : IMDbAnalyzer)
  (rows : list row) (ins : insights) (self' : IMDbAnalyzer) :
  df self = Some rows ->
  yearly_stats self = Some (yearly_table rows) ->
  generate_insights self = Ok (ins, self') ->
  exists y,
    In y (yearly_table rows) /\
    Rating_Year_index y = peak_volume_year ins /\
    forall y', In y' (yearly_table rows) ->
               Count y' <= Count y /\
               (Count y' = Count y ->
                Rating_Year_index y <= Rating_Year_index y').
Proof.
  intros Hdf Hy H.
  destruct (generate_insights_inv _ _ _ _ _ Hdf Hy H)
    as (_ & _ & (c & Ev) & _).
  apply idxmax_Z_first_max in Ev as (m1 & m2 & E & H1 & H2).
  apply map_eq_app in E as (l1 & t & Et & <- & E).
  apply map_eq_cons in E as (y & l2 & -> & Ey & <-).
  injection Ey as Ey1 Ey2.
  pose proof (sorted_unique_sorted (map Rating_Year rows)) as S.
  rewrite <- yearly_index_map, Et, map_app in S. simpl in S.
  apply sorted_app_inv in S as [_ S2].
  exists y. rewrite Et. split; [apply in_or_app; right; now left|].
  split; [exact Ey1|]. intros y' I. apply in_app_or in I as [I|[<-|I]].
  - specialize (H1 _ (in_map _ _ _ I)). simpl in H1. lia.
  - lia.
  - specialize (H2 _ (in_map _ _ _ I)). simpl in H2.
    specialize (S2 _ (in_map Rating_Year_index _ _ I)). lia.
Qed.

Lemma peak_volume_year_is_first_max_witness :
  exists y,
    In y (yearly_table (map (load_row Sample.clock) Sample.five_nolan)) /\
    Rating_Year_index y = 2019.
Proof.
  destruct (peak_volume_year_is_first_max
              (mkanalyzer
                 (Some (map (load_row Sample.clock) Sample.five_nolan)) None
                 (Some (yearly_table
                          (map (load_row Sample.clock) Sample.five_nolan)))
                 None)
              _ _ _ eq_refl eq_refl eq_refl) as (y & H1 & H2 & _).
  exists y. split; [exact H1|exact H2].
Defined.

Lemma yearly_avg_rat (rows : list row) (y : yearly_row) :
  In y (yearly_table rows) -> exists q, Avg_Your_Rating y = rat q.
Proof.
  intros (yr & Hyr & ->)%yearly_table_In. unfold yearly_agg.
  cbn [Avg_Your_Rating].
  apply in_map_iff in Hyr as (r & Hr & Hin).
  assert (In r (yearly_group rows yr)) as I.
  { apply filter_In. split; [exact Hin|]. now apply Z.eqb_eq. }
  destruct (yearly_group rows yr) as [|r' g]; [destruct I|].
  simpl. eauto.
Qed.

Lemma filter_all {A} (p : A -> bool) (l : list A) :
  (forall x, In x l -> p x = true) -> filter p l = l.
Proof.
  induction l as [|x l IH]; intros H; [reflexivity|]. simpl.
  rewrite (H x (or_introl eq_refl)), IH; [reflexivity|].
  intros; apply H; now right.
Qed.

Lemma rat_gtb_false_iff (a b : Q) :
  rat_gtb (rat a) (rat b) = false <-> (a <= b)%Q.
Proof.
  unfold rat_gtb, qltb. rewrite negb_false_iff. apply Qle_bool_iff.
Qed.

(** X11: after the rollup, the peak-quality year that [generate_insights]
    reports is a year of the rollup whose mean rating (as rounded in the
    rollup) no other year exceeds, and the earliest such year: every
    earlier year has a strictly smaller mean. *)
Theorem peak_quality_year_is_first_max (self : IMDbAnalyzer)
  (rows : list row) (ins : insights) (self' : IMDbAnalyzer) :
  df self = Some rows ->
  yearly_stats self = Some (yearly_table rows) ->
  generate_insights self = Ok (ins, self') ->
  exists y,
    In y (yearly_table rows) /\
    Rating_Year_index y = peak_quality_year ins /\
    forall y', In y' (yearly_table rows) ->
               rat_gtb (Avg_Your_Rating y') (Avg_Your_Rating y) = false /\
               (Rating_Year_index y' < Rating_Year_index y ->
                rat_gtb (Avg_Your_Rating y) (Avg_Your_Rating y') = true).
Proof.
  intros Hdf Hy H.
  destruct (generate_insights_inv _ _ _ _ _ Hdf Hy H)
    as (_ & _ & _ & (a & Ew) & _).
  rewrite filter_all in Ew.
  2:{ intros p (y & <- & I)%in_map_iff. simpl.
      now rewrite (yearly_avg_not_nan rows y I). }
  apply (idxmax_first_max rat_gtb (fun v => exists q, v = rat q)) in Ew.
  - destruct Ew as (m1 & m2 & E & H1 & H2).
    apply map_eq_app in E as (l1 & t & Et & <- & E).
    apply map_eq_cons in E as (y & l2 & -> & Ey & <-).
    injection Ey as Ey1 Ey2.
    pose proof (sorted_unique_sorted (map Rating_Year rows)) as S.
    rewrite <- yearly_index_map, Et, map_app in S. simpl in S.
    apply sorted_app_inv in S as [S1 S2].
    assert (In y (yearly_table rows)) as Iy
        by (rewrite Et; apply in_or_app; right; now left).
    exists y. split; [exact Iy|]. split; [exact Ey1|].
    destruct (yearly_avg_rat rows y Iy) as (qy & Hqy).
    intros y' I. destruct (yearly_avg_rat rows y' I) as (q' & Hq').
    rewrite Et in I. apply in_app_or in I as [I|[<-|I]].
    + pose proof (H1 _ (in_map _ _ _ I)) as G. simpl in G.
      rewrite <- Ey2 in G. split; [|intros _; exact G].
      rewrite Hq', Hqy in *. apply rat_gtb_false_iff.
      unfold rat_gtb, qltb in G. apply negb_true_iff in G.
      apply Qlt_le_weak, Qnot_le_lt. intros L.
      apply Qle_bool_iff in L. congruence.
    + split; [|lia]. rewrite Hqy. apply rat_gtb_false_iff, Qle_refl.
    + pose proof (H2 _ (in_map _ _ _ I)) as G. simpl in G.
      rewrite <- Ey2 in G. split; [exact G|].
      specialize (S2 _ (in_map Rating_Year_index _ _ I)). lia.
  - intros x b (qa & ->) (qb & ->) G. apply rat_gtb_false_iff.
    unfold rat_gtb, qltb in G. apply negb_true_iff in G.
    apply Qlt_le_weak, Qnot_le_lt. intros L.
    apply Qle_bool_iff in L. congruence.
  - intros x b c (qa & ->) (qb & ->) (qc & ->).
    rewrite !rat_gtb_false_iff. apply Qle_trans.
  - apply Forall_forall. intros p (y & <- & I)%in_map_iff. simpl.
    now apply (yearly_avg_rat rows).
Qed.

Lemma peak_quality_year_is_first_max_witness :
  exists y,
    In y (yearly_table (map (load_row Sample.clock) Sample.five_nolan)) /\
    Rating_Year_index y = 2020.
Proof.
  destruct (peak_quality_year_is_first_max
              (mkanalyzer
                 (Some (map (load_row Sample.clock) Sample.five_nolan)) None
                 (Some (yearly_table
                          (map (load_row Sample.clock) Sample.five_nolan)))
                 None)
              _ _ _ eq_refl eq_refl eq_refl) as (y & H1 & H2 & _).
  exists y. split; [exact H1|exact H2].
Defined.

(** ** The chart series *)

Lemma mapM_total_with {A B} (f : A -> result B) (P : B -> Prop)
  (xs : list A) :
  (forall x, In x xs -> exists y, f x = Ok y /\ P y) ->
  exists ys, mapM f xs = Ok ys /\ Forall P ys /\
             List.length ys = List.length xs.
Proof.
  induction xs as [|x xs IH]; intros H; simpl.
  - exists []. repeat split. constructor.
  - destruct (H x (or_introl eq_refl)) as (y & -> & Py).
    destruct IH as (ys & -> & F & L); [intros; apply H; now right|].
    simpl. exists (y :: ys). repeat split; [now constructor|simpl; now f_equal].
Qed.

Lemma percent_bounds (a b : Z) (q : Q) :
  0 <= a <= b -> percent a b = Ok q -> is_percentage q.
Proof.
  intros Hab H. apply percent_inv in H as [Hb H].
  assert (0 < inject_Z b)%Q as Hpos by (unfold Qlt; simpl; lia).
  unfold is_percentage. rewrite H. split.
  - apply Qle_shift_div_l; [exact Hpos|]. rewrite Qmult_0_l.
    apply Qmult_le_0_compat; [|discriminate].
    rewrite <- (Zle_Qle 0). lia.
  - apply Qle_shift_div_r; [exact Hpos|].
    rewrite (Qmult_comm 100). apply Qmult_le_compat_r; [|discriminate].
    rewrite <- Zle_Qle. lia.
Qed.

Lemma guarded_percent_returns (a b : Z) :
  0 <= a <= b ->
  exists q, guarded_percent a b = Ok q /\ is_percentage q.
Proof.
  intros Hab. unfold guarded_percent. destruct (Z.ltb_spec 0 b).
  - destruct (percent_Ok a b) as (q & E); [lia|].
    exists q. split; [exact E|]. eapply percent_bounds; eauto.
  - exists 0%Q. split; [reflexivity|]. split; discriminate.
Qed.

Lemma generosity_by_year_returns (rows : list row) :
  exists ps,
    generosity_by_year rows = Ok ps /\ Forall is_percentage ps /\
    List.length ps = List.length (sorted_unique (map Rating_Year rows)).
Proof.
  apply mapM_total_with. intros y _. apply guarded_percent_returns.
  apply count_where_bounds.
Qed.

Lemma str_accessor_Ok (column : row -> option string) (rows : list row) :
  (exists r, In r rows /\ column r <> None) ->
  str_accessor column rows = Ok tt.
Proof.
  intros (r & Hr & Hc). unfold str_accessor.
  assert (existsb (fun r => match column r with
                            | Some _ => true
                            | None => false
                            end) rows = true) as ->; [|reflexivity].
  apply existsb_exists. exists r. split; [exact Hr|].
  destruct (column r); [reflexivity|congruence].
Qed.

Lemma str_accessor_raises (column : row -> option string) (rows : list row) :
  (forall r, In r rows -> column r = None) ->
  str_accessor column rows = Raise AttributeError.
Proof.
  intros H. unfold str_accessor.
  assert (existsb (fun r => match column r with
                            | Some _ => true
                            | None => false
                            end) rows = false) as ->; [|reflexivity].
  apply not_true_is_false. intros (r & Hr & Hc)%existsb_exists.
  now rewrite (H r Hr) in Hc.
Qed.

Lemma genre_by_year_returns {engine : Re.Engine}
  (rows : list row) (genre : string) :
  (exists r, In r rows /\ Genres r <> None) ->
  Re.supported genre = true ->
  exists ps,
    genre_by_year rows genre = Ok ps /\ Forall is_percentage ps /\
    List.length ps = List.length (sorted_unique (map Rating_Year rows)).
Proof.
  intros Hg Hs. apply mapM_total_with. intros y _.
  rewrite (str_accessor_Ok _ _ Hg). simpl rbind.
  unfold select_contains. rewrite Hs. simpl rbind.
  apply guarded_percent_returns. apply count_where_bounds.
Qed.

Lemma watchlist_supported (g : string) :
  In g watchlist -> Re.supported g = true.
Proof.
  intros [<-|[<-|[<-|[<-|[<-|[]]]]]]; reflexivity.
Qed.

Lemma create_visualizations_returns {engine : Re.Engine}
  (self : IMDbAnalyzer) (rows : list row)
  (ys : list yearly_row) :
  df self = Some rows -> yearly_stats self = Some ys ->
  (exists r, In r rows /\ Genres r <> None) ->
  exists by_genre generosity,
    create_visualizations self
    = Ok (mkcharts (sorted_unique (map Rating_Year rows)) by_genre
            (cumsum_from 0 (map Count ys)) generosity, self) /\
    map fst by_genre = watchlist /\
    (forall g ps, In (g, ps) by_genre ->
       Forall is_percentage ps /\
       List.length ps = List.length (sorted_unique (map Rating_Year rows))) /\
    Forall is_percentage generosity /\
    List.length generosity
    = List.length (sorted_unique (map Rating_Year rows)).
Proof.
  intros Hdf Hy Hg. unfold create_visualizations, get_df. rewrite Hdf, Hy.
  cbn [rbind].
  match goal with |- context [mapM ?g watchlist] => set (f := g) end.
  assert (exists by_genre,
            mapM f watchlist = Ok by_genre /\
            map fst by_genre = watchlist /\
            forall g ps, In (g, ps) by_genre ->
              Forall is_percentage ps /\
              List.length ps
              = List.length (sorted_unique (map Rating_Year rows)))
    as (by_genre & -> & Hk & Hp).
  { generalize watchlist_supported. generalize watchlist. intros l.
    induction l as [|g l IH]; intros Hs.
    - exists []. split; [reflexivity|]. split; [reflexivity|].
      intros ? ? [].
    - destruct (genre_by_year_returns rows g Hg) as (ps & E & F & L);
        [apply Hs; now left|].
      destruct IH as (bg & Eb & Kb & Pb); [intros; apply Hs; now right|].
      exists ((g, ps) :: bg). simpl mapM. unfold f at 1. rewrite E.
      simpl rbind. rewrite Eb. simpl rbind. split; [reflexivity|].
      split; [simpl; now f_equal|].
      intros g' ps' [P|I]; [injection P as <- <-; now split|eauto]. }
  simpl rbind.
  destruct (generosity_by_year_returns rows) as (gs & -> & F & L).
  simpl rbind. exists by_genre, gs. repeat split; auto; apply (Hp g ps H).
Qed.

Lemma cumsum_last_gen (xs : list Z) (acc d : Z) :
  last (cumsum_from acc xs) d
  = match xs with
    | [] => d
    | _ => acc + sumZ xs
    end.
Proof.
  revert acc; induction xs as [|x xs IH]; intros acc; [reflexivity|].
  destruct xs as [|x' xs'].
  - simpl. lia.
  - specialize (IH (acc + x)).
    change (last (cumsum_from acc (x :: x' :: xs')) d)
      with (last (cumsum_from (acc + x) (x' :: xs')) d).
    rewrite IH. simpl. lia.
Qed.

Lemma cumsum_last (acc : Z) (xs : list Z) :
  last (cumsum_from acc xs) acc = acc + sumZ xs.
Proof. rewrite cumsum_last_gen. destruct xs; simpl; lia. Qed.

(** X12: once the frame is loaded and the rollup stored, and the genres
    column holds at least one string (pandas offers [.str] on the column
    only then), the series that [create_visualizations] computes itself are
    prepared without raising and the analyzer is left as it was: one series
    per watchlist genre and one for generosity, each with one value per
    rating year, every value a percentage between 0 and 100. *)
Theorem chart_series_prepared {engine : Re.Engine}
  (self : IMDbAnalyzer) (rows : list row)
  (ys : list yearly_row) :
  df self = Some rows -> yearly_stats self = Some ys ->
  (exists r, In r rows /\ Genres r <> None) ->
  exists ch,
    create_visualizations self = Ok (ch, self) /\
    chart_years ch = sorted_unique (map Rating_Year rows) /\
    map fst (chart_genre_by_year ch) = watchlist /\
    (forall g ps, In (g, ps) (chart_genre_by_year ch) ->
       Forall is_percentage ps /\
       List.length ps = List.length (chart_years ch)) /\
    Forall is_percentage (chart_generosity ch) /\
    List.length (chart_generosity ch) = List.length (chart_years ch).
Proof.
  intros Hdf Hy Hg.
  destruct (create_visualizations_returns self rows ys Hdf Hy Hg)
    as (bg & gs & E & H1 & H2 & H3 & H4).
  eexists. split; [exact E|]. cbn [chart_years chart_genre_by_year
                                     chart_generosity].
  repeat split; auto; apply (H2 g ps H).
Qed.

Lemma chart_series_prepared_witness :
  exists ch,
    create_visualizations
      (mkanalyzer (Some (map (load_row Sample.clock) Sample.five_nolan)) None
         (Some (yearly_table (map (load_row Sample.clock) Sample.five_nolan)))
         None)
    = Ok (ch,
          mkanalyzer (Some (map (load_row Sample.clock) Sample.five_nolan))
            None
            (Some (yearly_table
                     (map (load_row Sample.clock) Sample.five_nolan)))
            None) /\
    chart_years ch = [2019; 2020; 2021].
Proof.
  destruct (chart_series_prepared
              (mkanalyzer
                 (Some (map (load_row Sample.clock) Sample.five_nolan)) None
                 (Some (yearly_table
                          (map (load_row Sample.clock) Sample.five_nolan)))
                 None) _ _ eq_refl eq_refl) as (ch & H1 & H2 & _).
  - eexists. split; [left; reflexivity|discriminate].
  - exists ch. split; [exact H1|]. rewrite H2. reflexivity.
Defined.

(** X13: the running total drawn in the seventh panel, taken over the
    rollup that [yearly_evolution] stored, has one value per rating year and
    ends at the number of rows of the frame (the genres column holding at
    least one string, as the method needs to get that far). *)
Theorem cumulative_ends_at_total {engine : Re.Engine}
  (self : IMDbAnalyzer) (rows : list row)
  (table : list yearly_row) (self1 : IMDbAnalyzer) (ch : charts)
  (self2 : IMDbAnalyzer) :
  df self = Some rows ->
  (exists r, In r rows /\ Genres r <> None) ->
  yearly_evolution self = Ok (table, self1) ->
  create_visualizations self1 = Ok (ch, self2) ->
  last (chart_cumulative ch) 0 = len rows /\
  List.length (chart_cumulative ch) = List.length (chart_years ch).
Proof.
  intros Hdf Hg Hy Hc.
  destruct (yearly_evolution_inv _ _ _ _ Hdf Hy) as [-> ->].
  destruct (create_visualizations_returns
              (mkanalyzer (df self) (df_Age_Group self)
                 (Some (yearly_table rows)) (director_analysis self))
              rows (yearly_table rows) Hdf eq_refl Hg)
    as (bg & gs & E & _).
  rewrite E in Hc. injection Hc as <- _.
  cbn [chart_cumulative chart_years]. split.
  - rewrite cumsum_last, yearly_counts_sum. lia.
  - rewrite <- yearly_index_map.
    generalize (yearly_table rows) 0. clear. intros l.
    induction l as [|y l IH]; intros acc; simpl; [reflexivity|].
    now rewrite IH.
Qed.

Lemma cumulative_ends_at_total_witness :
  last (cumsum_from 0
          (map Count
             (yearly_table (map (load_row Sample.clock) Sample.five_nolan))))
       0
  = 5.
Proof.
  assert (exists r,
            In r (map (load_row Sample.clock) Sample.five_nolan) /\
            Genres r <> None) as G
      by (eexists; split; [left; reflexivity|discriminate]).
  destruct (cumulative_ends_at_total
              (Sample.loaded Sample.five_nolan Sample.clock)
              (map (load_row Sample.clock) Sample.five_nolan) _ _ _ _
              eq_refl G eq_refl eq_refl) as (H & _).
  exact H.
Defined.

(** ** A whole run *)

Lemma analyze_genres_returns {engine : Re.Engine}
  (self : IMDbAnalyzer) (rows : list row)
  (lines : list genre_line) :
  df self = Some rows -> genre_lines rows = Ok lines ->
  analyze_genres self = Ok (top_genres rows, self).
Proof.
  intros Hdf Hl. unfold analyze_genres, get_df. rewrite Hdf. simpl rbind.
  rewrite Hl. reflexivity.
Qed.

Lemma rating_patterns_returns (self : IMDbAnalyzer) (rows : list row) :
  df self = Some rows -> rows <> [] ->
  rating_patterns self = Ok (rating_dist rows, self).
Proof.
  intros Hdf Hne. unfold rating_patterns, get_df. rewrite Hdf. simpl rbind.
  destruct (rating_summary_returns rows Hne) as (rep & ->). reflexivity.
Qed.

(** X14: a run over an export with at least one record returns whenever
    some ranked director passes the guard, the guarded director and genre
    tokens are patterns of the fragment, and some record has a genres cell
    (drawing left aside).  The dictionary it returns holds, under its five
    keys, what [basic_statistics], [yearly_evolution], [analyze_directors],
    [analyze_genres] and [generate_insights] return when called in that
    order on the loaded frame: the rollup of the frame, the table of its
    guarded directors and the ranking of its genres among them.  The
    analyzer is left with the frame, the age-group column, the rollup and
    the director table stored. *)
Theorem pipeline_returns {engine : Re.Engine}
  (table : list Csv.title) (now : date) :
  table <> [] ->
  filter director_guard (top_directors (map (load_row now) table)) <> [] ->
  (forall t c,
     In (t, c)
        (filter director_guard (top_directors (map (load_row now) table))) ->
     Re.supported t = true) ->
  (forall t c,
     In (t, c) (filter genre_guard (top_genres (map (load_row now) table))) ->
     Re.supported t = true) ->
  (exists t, In t table /\ Csv.Genres t <> None) ->
  exists b s1 s2 s3,
    main table now = Ok (b, s3) /\
    basic_statistics (Sample.loaded table now)
    = Ok (basic_stats b, Sample.loaded table now) /\
    yearly_evolution (Sample.loaded table now) = Ok (yearly_data b, s1) /\
    analyze_directors s1 = Ok (director_data b, s2) /\
    analyze_genres s2 = Ok (genre_data b, s2) /\
    (exists ages, content_age_analysis s2 = Ok (ages, s3)) /\
    generate_insights s3 = Ok (insights_data b, s3) /\
    yearly_data b = yearly_table (map (load_row now) table) /\
    director_table (map (load_row now) table) = Ok (director_data b) /\
    genre_data b = top_genres (map (load_row now) table) /\
    s3 = mkanalyzer (Some (map (load_row now) table))
           (Some (map age_group_of (map (load_row now) table)))
           (Some (yearly_data b)) (Some (director_data b)).
Proof.
  intros Hne Hg Hds Hgs Hgen. unfold Sample.loaded.
  set (rows := map (load_row now) table) in *.
  assert (rows <> []) as Hrows by (destruct table; [congruence|discriminate]).
  assert (exists r, In r rows /\ Genres r <> None) as Hgr.
  { destruct Hgen as (t & Ht & Hc). exists (load_row now t).
    split; [now apply in_map|exact Hc]. }
  destruct (director_table_total rows Hds) as (dt & Hdt).
  assert (dt <> []) as Hdne.
  { intros ->. apply director_table_keys in Hdt. simpl in Hdt. congruence. }
  destruct (genre_lines_total rows Hgs) as (gl & Hgl).
  set (s0 := mkanalyzer (Some rows) None None None).
  set (s1 := mkanalyzer (Some rows) None (Some (yearly_table rows)) None).
  set (s2 := mkanalyzer (Some rows) None (Some (yearly_table rows))
               (Some dt)).
  set (s3 := mkanalyzer (Some rows) (Some (map age_group_of rows))
               (Some (yearly_table rows)) (Some dt)).
  destruct (basic_statistics_returns s0 rows eq_refl Hrows) as (m & _ & Eb).
  assert (yearly_evolution s0 = Ok (yearly_table rows, s1)) as Ey
      by reflexivity.
  assert (analyze_directors s1 = Ok (dt, s2)) as Ed
      by apply (analyze_directors_returns s1 rows dt eq_refl Hdt Hdne).
  pose proof (analyze_genres_returns s2 rows gl eq_refl Hgl) as Eg.
  pose proof (rating_patterns_returns s2 rows eq_refl Hrows) as Ep.
  assert (content_age_analysis s2 = Ok (age_table rows, s3)) as Ea
      by reflexivity.
  destruct (generate_insights_returns s3 rows eq_refl Hrows eq_refl)
    as (ins & Ei & _).
  destruct (create_visualizations_returns s3 rows (yearly_table rows)
              eq_refl eq_refl Hgr) as (bg & gs & Ec & _).
  eexists (mkbundle _ _ _ _ _), s1, s2, s3.
  cbn [basic_stats yearly_data director_data genre_data insights_data].
  split; [|split; [exact Eb|split; [exact Ey|split; [exact Ed|
           split; [exact Eg|split; [eauto|split; [exact Ei|
           split; [reflexivity|split; [exact Hdt|
           split; reflexivity]]]]]]]]].
  unfold main, run_complete_analysis.
  change (load_data table now init) with (Ok (tt, s0)).
  cbn [rbind]. rewrite Eb. cbn [rbind]. rewrite Ey. cbn [rbind].
  rewrite Ed. cbn [rbind]. rewrite Eg. cbn [rbind]. rewrite Ep. cbn [rbind].
  rewrite Ea. cbn [rbind]. rewrite Ei. cbn [rbind]. rewrite Ec.
  reflexivity.
Qed.

Lemma pipeline_returns_witness :
  exists b s3,
    main Sample.five_nolan Sample.clock = Ok (b, s3) /\
    generate_insights s3 = Ok (insights_data b, s3).
Proof.
  destruct (pipeline_returns Sample.five_nolan Sample.clock)
    as (b & s1 & s2 & s3 & H1 & _ & _ & _ & _ & _ & H7 & _).
  - discriminate.
  - discriminate.
  - intros t c [E|[E|[]]]; injection E as <- _; reflexivity.
  - intros t c [E|[]]; injection E as <- _; reflexivity.
  - eexists. split; [left; reflexivity|discriminate].
  - exists b, s3. split; [exact H1|exact H7].
Defined.

(** ** Dates and the latest work *)

Lemma date_leb_iff (a b : date) :
  date_leb a b = true <->
  year a < year b \/
  year a = year b /\
  (month a < month b \/ month a = month b /\ day a <= day b).
Proof.
  unfold date_leb.
  rewrite !orb_true_iff, !andb_true_iff, !orb_true_iff, !andb_true_iff.
  rewrite !Z.ltb_lt, !Z.eqb_eq, Z.leb_le. reflexivity.
Qed.

Lemma date_leb_refl (a : date) : date_leb a a = true.
Proof. apply date_leb_iff. lia. Qed.

Lemma date_leb_trans (a b c : date) :
  date_leb a b = true -> date_leb b c = true -> date_leb a c = true.
Proof. rewrite !date_leb_iff. lia. Qed.

Lemma date_leb_total (a b : date) :
  date_leb a b = false -> date_leb b a = true.
Proof.
  intros H. apply date_leb_iff.
  assert (~ date_leb a b = true) as N by congruence.
  rewrite date_leb_iff in N. lia.
Qed.

(** The maximum of a date column is one of its dates and none is later. *)
Lemma max_date_spec (ds : list date) (m : date) :
  max_date ds = Some m ->
  In m ds /\ forall d, In d ds -> date_leb d m = true.
Proof.
  revert m; induction ds as [|d ds IH]; intros m; [discriminate|]. simpl.
  destruct (max_date ds) as [m'|] eqn:E.
  - destruct (IH m' eq_refl) as [I L].
    destruct (date_leb d m') eqn:G; intros P; injection P as <-.
    + split; [now right|]. intros x [<-|Hx]; auto.
    + split; [now left|]. intros x [<-|Hx]; [apply date_leb_refl|].
      eapply date_leb_trans; [apply L, Hx|now apply date_leb_total].
  - intros P; injection P as <-. destruct ds; [|simpl in E].
    + split; [now left|]. intros x [<-|[]]. apply date_leb_refl.
    + destruct (max_date ds); [destruct (date_leb _ _)|]; discriminate.
Qed.

(** X15: every row of the director table has a defined mean (never
    [nan]), and its latest work is the rating date of one of the records
    its token is found in, with no such record rated later. *)
Theorem latest_work_is_latest {engine : Re.Engine} (self : IMDbAnalyzer)
  (rows : list row) (table : list director_row)
  (self' : IMDbAnalyzer) (d : director_row) :
  df self = Some rows ->
  analyze_directors self = Ok (table, self') -> In d table ->
  (exists q, Avg_Rating d = rat q) /\
  (exists r, In r rows /\ picks Directors (Director d) r = true /\
             Date_Rated r = Latest_Work d) /\
  (forall r, In r rows -> picks Directors (Director d) r = true ->
             date_leb (Date_Rated r) (Latest_Work d) = true).
Proof.
  intros Hdf H Hd.
  destruct (analyze_directors_inv _ _ _ _ Hdf H) as [Ht _].
  unfold director_table in Ht. apply mapM_Ok_Forall2 in Ht.
  assert (exists e, director_entry rows e = Ok d) as ([t c] & He).
  { clear -Ht Hd. induction Ht as [|e d' es ds He _ IH]; [destruct Hd|].
    destruct Hd as [->|Hd]; eauto. }
  apply director_entry_spec in He as (_ & <- & _ & Ha & _ & Hm).
  apply max_date_spec in Hm as [Im Lm].
  apply in_map_iff in Im as (r & Er & Ir).
  apply filter_In in Ir as [Ir Mr].
  split; [|split].
  - rewrite Ha.
    assert (In r (filter (picks Directors (Director d)) rows)) as I
        by (apply filter_In; now split).
    destruct (filter (picks Directors (Director d)) rows);
      [destruct I|eexists; reflexivity].
  - exists r. auto.
  - intros r' Ir' Mr'. apply Lm. apply in_map. apply filter_In. now split.
Qed.

Lemma latest_work_is_latest_witness :
  exists r,
    In r (map (load_row Sample.clock) Sample.ann_and_anna) /\
    picks Directors "Ann" r = true /\
    Date_Rated r = mkdate 2022 1 1.
Proof.
  destruct (latest_work_is_latest
              (Sample.loaded Sample.ann_and_anna Sample.clock) _ _ _
              (mkdirector "Ann" 5 (rat 7) (sqrt_of 6) (mkdate 2022 1 1))
              eq_refl eq_refl (or_introl eq_refl)) as (_ & H & _).
  exact H.
Defined.

(** ** The age rollup, continued *)

Lemma age_buckets_disjoint (r : row) :
  (if age_in Very_Recent r then 1 else 0)
  + (if age_in Recent r then 1 else 0)
  + (if age_in Older r then 1 else 0)
  + (if age_in Classic r then 1 else 0)
  + (if age_in Very_Classic r then 1 else 0)
  = (if age_in_bins r then 1 else 0).
Proof.
  unfold age_in, age_in_bins, in_bounds, bucket_bounds.
  destruct (Content_Age r) as [a|]; [|reflexivity].
  cbn [fst snd]. cases_Z; cbn [andb]; lia.
Qed.

Lemma age_counts_sum (rows : list row) :
  sumZ (map Age_Count (age_table rows)) = count_where age_in_bins rows.
Proof.
  unfold age_table, age_labels. cbn [map Age_Count sumZ fold_right].
  change (fun r => in_group ?g r) with (in_group g).
  induction rows as [|r rows IH]; [reflexivity|].
  rewrite count_where_cons, <- IH, <- age_buckets_disjoint.
  rewrite <- !in_group_age_in.
  repeat match goal with
         | |- context [len (filter ?p (r :: rows))] =>
             change (len (filter p (r :: rows)))
               with (count_where p (r :: rows));
             rewrite (count_where_cons p r rows)
         end.
  unfold count_where. lia.
Qed.

(** X16: the buckets of the age rollup share no row: their counts add up
    to the number of rows whose content age lies inside the bins, at most
    the number of rows of the frame; the method stores the bucket of each
    row beside the frame. *)
Theorem age_counts_total (self : IMDbAnalyzer) (rows : list row)
  (table : list age_row) (self' : IMDbAnalyzer) :
  df self = Some rows ->
  content_age_analysis self = Ok (table, self') ->
  map Age_Group_index table = age_labels /\
  sumZ (map Age_Count table) = count_where age_in_bins rows /\
  sumZ (map Age_Count table) <= len rows /\
  df_Age_Group self' = Some (map age_group_of rows) /\
  df self' = Some rows.
Proof.
  intros Hdf. unfold content_age_analysis, get_df. rewrite Hdf. simpl rbind.
  intros E; injection E as <- <-. cbn [df_Age_Group df].
  split; [reflexivity|]. rewrite age_counts_sum.
  split; [reflexivity|]. split; [apply count_where_bounds|].
  split; reflexivity.
Qed.

Lemma age_counts_total_witness :
  sumZ (map Age_Count
          (age_table (map (load_row Sample.clock) Sample.silent_film)))
  = 0.
Proof.
  destruct (age_counts_total
              (Sample.loaded Sample.silent_film Sample.clock) _ _ _
              eq_refl eq_refl) as (_ & H & _).
  rewrite H. reflexivity.
Defined.

(** ** The splitter, continued *)

Module SplitFacts.
Import Str.

Lemma count_char_app (c : ascii) (a b : string) :
  count_char c (a ++ b) = (count_char c a + count_char c b)%nat.
Proof. induction a as [|d a IH]; simpl; [reflexivity|]. rewrite IH. lia. Qed.

Lemma strip_no_sep (sep : ascii) (p : string) :
  count_char sep p = O -> count_char sep (strip p) = O.
Proof.
  destruct (StrFacts.strip_substring p) as (a & b & E). intros H.
  rewrite E, !count_char_app in H. lia.
Qed.

Lemma split_single (sep : ascii) (t : string) :
  count_char sep t = O -> split sep t = [t].
Proof.
  induction t as [|c t IH]; simpl; [reflexivity|].
  destruct (Ascii.eqb c sep); [discriminate|]. simpl. intros H.
  now rewrite (IH H).
Qed.

Lemma rstrip_fixed (t : string) :
  (forall c front, t = front ++ String c EmptyString -> is_space c = false) ->
  rstrip t = t.
Proof.
  induction t as [|c t IH]; intros H; [reflexivity|]. simpl.
  rewrite IH.
  - destruct t; [|reflexivity].
    now rewrite (H c EmptyString eq_refl).
  - intros c' front E. apply (H c' (String c front)). simpl. now f_equal.
Qed.

Lemma trimmed_strip_fixed (t : string) : trimmed t -> strip t = t.
Proof.
  intros [H1 H2]. unfold strip.
  assert (lstrip t = t) as ->.
  { destruct t as [|c t]; [reflexivity|]. simpl.
    now rewrite (H1 c t eq_refl). }
  now apply rstrip_fixed.
Qed.

End SplitFacts.

(** X17: splitting is idempotent on its own output: a non-empty token cut
    from a cell, read again as a cell, gives that token alone; it holds
    no comma and stripping leaves it as it is. *)
Theorem field_tokens_idempotent (cell : option string) (t : string) :
  In t (field_tokens cell) -> t <> "" ->
  Str.count_char ","%char t = O /\
  Str.strip t = t /\
  field_tokens (Some t) = [t].
Proof.
  intros H Hne.
  assert (Str.count_char ","%char t = O /\ Str.strip t = t) as [Hc Hs].
  { destruct cell as [s|]; [|destruct H].
    destruct s as [|c s]; [destruct H|].
    rewrite field_tokens_present in H by discriminate.
    apply in_map_iff in H as (p & <- & Hp). split.
    - eapply SplitFacts.strip_no_sep, StrFacts.split_no_sep, Hp.
    - apply SplitFacts.trimmed_strip_fixed, StrFacts.strip_trimmed. }
  split; [exact Hc|]. split; [exact Hs|].
  rewrite (field_tokens_present t Hne), (SplitFacts.split_single _ _ Hc).
  simpl. now rewrite Hs.
Qed.

Lemma field_tokens_idempotent_witness :
  field_tokens (Some "Sci-Fi") = ["Sci-Fi"].
Proof.
  destruct (field_tokens_idempotent (Some "Drama,  Sci-Fi ") "Sci-Fi")
    as (_ & _ & H).
  - right; left; reflexivity.
  - discriminate.
  - exact H.
Defined.

(** ** Methods that only read *)

(** X18: [basic_statistics], [analyze_genres], [rating_patterns],
    [generate_insights] and [create_visualizations] leave the analyzer as
    they found it whenever they return; the insights repeat the mean and
    the correlation of [basic_statistics], and their generosity is a
    percentage between 0 and 100. *)
Theorem reading_methods_keep_state {engine : Re.Engine}
  (self : IMDbAnalyzer) (rows : list row) :
  df self = Some rows ->
  (forall st self', basic_statistics self = Ok (st, self') -> self' = self) /\
  (forall g self', analyze_genres self = Ok (g, self') -> self' = self) /\
  (forall p self', rating_patterns self = Ok (p, self') -> self' = self) /\
  (forall ch self',
     create_visualizations self = Ok (ch, self') -> self' = self) /\
  (forall ins self',
     generate_insights self = Ok (ins, self') ->
     self' = self /\
     is_percentage (insight_generosity ins) /\
     exists st,
       basic_statistics self = Ok (st, self) /\
       insight_avg_rating ins = avg_rating st /\
       insight_correlation ins = imdb_correlation st).
Proof.
  intros Hdf. split; [|split; [|split; [|split]]].
  - intros st self' H. now apply (basic_statistics_inv _ _ _ _ Hdf) in H.
  - intros g self'. unfold analyze_genres, get_df. rewrite Hdf. simpl rbind.
    destruct (genre_lines rows); [|discriminate]. simpl rbind. congruence.
  - intros p self'. unfold rating_patterns, get_df. rewrite Hdf. simpl rbind.
    destruct (rating_summary rows); [|discriminate]. simpl rbind. congruence.
  - intros ch self'. unfold create_visualizations, get_df. rewrite Hdf.
    cbn [rbind]. destruct (yearly_stats self); [|discriminate]. cbn [rbind].
    match goal with
    | |- context [mapM ?f watchlist] => destruct (mapM f watchlist)
    end; [|discriminate].
    cbn [rbind].
    destruct (generosity_by_year rows); [|discriminate]. cbn [rbind].
    congruence.
  - intros ins self' H. unfold generate_insights in H.
    destruct (basic_statistics self) as [[st s1]|] eqn:Eb; [|discriminate].
    destruct (basic_statistics_inv _ _ _ _ Hdf Eb) as (-> & Hne & _).
    simpl rbind in H. unfold get_df in H. rewrite Hdf in H. simpl rbind in H.
    destruct (percent _ _) as [g|] eqn:Eg; [|discriminate].
    simpl rbind in H.
    destruct (yearly_stats self); [|discriminate]. simpl rbind in H.
    destruct (idxmax Z.gtb _) as [[v c]|]; [|discriminate].
    simpl rbind in H.
    destruct (idxmax rat_gtb _) as [[w a]|]; [|discriminate].
    simpl rbind in H. injection H as <- <-.
    cbn [insight_generosity insight_avg_rating insight_correlation].
    split; [reflexivity|]. split.
    + eapply percent_bounds; [|exact Eg]. apply count_where_bounds.
    + exists st. repeat split.
Qed.

Lemma reading_methods_keep_state_witness :
  exists ins,
    generate_insights
      (mkanalyzer (Some (map (load_row Sample.clock) Sample.five_nolan)) None
         (Some (yearly_table (map (load_row Sample.clock) Sample.five_nolan)))
         None)
    = Ok (ins,
          mkanalyzer (Some (map (load_row Sample.clock) Sample.five_nolan))
            None
            (Some (yearly_table
                     (map (load_row Sample.clock) Sample.five_nolan)))
            None) /\
    is_percentage (insight_generosity ins).
Proof.
  eexists. split; [reflexivity|].
  destruct (reading_methods_keep_state
              (mkanalyzer
                 (Some (map (load_row Sample.clock) Sample.five_nolan)) None
                 (Some (yearly_table
                          (map (load_row Sample.clock) Sample.five_nolan)))
                 None) _ eq_refl)
    as (_ & _ & _ & _ & H).
  destruct (H _ _ eq_refl) as (_ & K & _). exact K.
Defined.

(** ** Reloading *)

(** X19: [load_data] replaces the frame and drops the age-group column but
    keeps the stored rollup and director table, and [generate_insights]
    reads its peak years off the stored rollup alone: two analyzers that
    hold the same rollup report the same peak years, whatever frames they
    hold, so after a reload the peaks are those of the earlier export until
    [yearly_evolution] is run again. *)
Theorem peaks_follow_stored_rollup (self : IMDbAnalyzer)
  (table : list Csv.title) (now : date) (ys : list yearly_row)
  (rows : list row) (ins1 : insights) (s1 : IMDbAnalyzer) :
  df self = Some rows -> yearly_stats self = Some ys ->
  generate_insights self = Ok (ins1, s1) ->
  exists reloaded,
    load_data table now self = Ok (tt, reloaded) /\
    df reloaded = Some (map (load_row now) table) /\
    df_Age_Group reloaded = None /\
    yearly_stats reloaded = Some ys /\
    director_analysis reloaded = director_analysis self /\
    (forall ins2 s2,
       generate_insights reloaded = Ok (ins2, s2) ->
       peak_volume_year ins2 = peak_volume_year ins1 /\
       peak_quality_year ins2 = peak_quality_year ins1).
Proof.
  intros Hdf Hy H1. eexists. split; [reflexivity|].
  cbn [df df_Age_Group yearly_stats director_analysis].
  split; [reflexivity|]. split; [reflexivity|]. split; [exact Hy|].
  split; [reflexivity|]. intros ins2 s2 H2.
  destruct (generate_insights_inv _ _ _ _ _ Hdf Hy H1)
    as (_ & _ & (c1 & V1) & (a1 & Q1) & _).
  destruct (generate_insights_inv
              (mkanalyzer (Some (map (load_row now) table)) None
                 (yearly_stats self) (director_analysis self))
              _ ys _ _ eq_refl Hy H2)
    as (_ & _ & (c2 & V2) & (a2 & Q2) & _).
  rewrite V1 in V2. rewrite Q1 in Q2.
  injection V2 as -> _. injection Q2 as -> _. now split.
Qed.

Lemma peaks_follow_stored_rollup_witness :
  exists reloaded,
    load_data Sample.four_dramas Sample.clock
      (mkanalyzer (Some (map (load_row Sample.clock) Sample.five_nolan)) None
         (Some (yearly_table (map (load_row Sample.clock) Sample.five_nolan)))
         None)
    = Ok (tt, reloaded) /\
    yearly_stats reloaded
    = Some (yearly_table (map (load_row Sample.clock) Sample.five_nolan)).
Proof.
  destruct (peaks_follow_stored_rollup
              (mkanalyzer
                 (Some (map (load_row Sample.clock) Sample.five_nolan)) None
                 (Some (yearly_table
                          (map (load_row Sample.clock) Sample.five_nolan)))
                 None)
              Sample.four_dramas Sample.clock _ _ _ _
              eq_refl eq_refl eq_refl)
    as (reloaded & H1 & _ & _ & H4 & _).
  exists reloaded. split; [exact H1|exact H4].
Defined.

(** ** Rankings, continued *)

Lemma ge_count_trans (a b c : string * Z) :
  ge_count a b -> ge_count b c -> ge_count a c.
Proof. unfold ge_count. lia. Qed.

Lemma sorted_firstn_skipn (n : nat) (l : list (string * Z)) :
  StronglySorted ge_count l ->
  forall a b, In a (firstn n l) -> In b (skipn n l) -> ge_count a b.
Proof.
  revert l; induction n as [|n IH]; intros l S a b Ha Hb; [destruct Ha|].
  destruct l as [|x l]; [destruct Ha|].
  inversion S as [|? ? S' F]; subst. simpl in Ha, Hb.
  destruct Ha as [<-|Ha]; [|eauto].
  rewrite Forall_forall in F. apply F.
  rewrite <- (firstn_skipn n l). apply in_or_app. now right.
Qed.

Lemma most_common_dominates (n : nat) (c : list (string * Z))
  (e e' : string * Z) :
  In e (most_common n c) -> In e' c -> ~ In e' (most_common n c) ->
  snd e' <= snd e.
Proof.
  unfold most_common. intros He He' Hn.
  set (ranking := fold_right insert_desc [] c) in *.
  assert (StronglySorted ge_count ranking) as S.
  { apply Sorted_StronglySorted; [|apply ranking_sorted].
    intros x y z. apply ge_count_trans. }
  assert (In e' ranking) as I
      by (eapply Permutation_in; [apply ranking_perm|exact He']).
  rewrite <- (firstn_skipn n ranking) in I.
  apply in_app_or in I as [I|I]; [contradiction|].
  apply (sorted_firstn_skipn n ranking S e e' He I).
Qed.

Lemma counter_add_sum (t : string) (c : list (string * Z)) :
  sumZ (map snd (counter_add t c)) = sumZ (map snd c) + 1.
Proof.
  induction c as [|[k n] c IH]; simpl; [lia|].
  destruct (String.eqb k t); simpl; [lia|]. rewrite IH. lia.
Qed.

Lemma Counter_sum (l : list string) :
  sumZ (map snd (Counter l)) = len l.
Proof.
  unfold Counter.
  assert (forall acc,
            sumZ (map snd (fold_left (fun c t => counter_add t c) l acc))
            = sumZ (map snd acc) + len l) as G.
  { induction l as [|t l IH]; intros acc; simpl.
    - unfold len. simpl. lia.
    - rewrite IH, counter_add_sum, len_cons. lia. }
  rewrite G. simpl. lia.
Qed.

(** X20: the two rankings keep the most frequent tokens: no token left out
    of the first 15 is counted more often than one that is kept; and the
    counts of a column's counter add up to the number of tokens its cells
    list. *)
Theorem top_tokens_most_frequent (rows : list row) :
  (forall e e',
     In e (top_directors rows) ->
     In e' (Counter (token_list (map Directors rows))) ->
     ~ In e' (top_directors rows) -> snd e' <= snd e) /\
  (forall e e',
     In e (top_genres rows) ->
     In e' (Counter (token_list (map Genres rows))) ->
     ~ In e' (top_genres rows) -> snd e' <= snd e) /\
  sumZ (map snd (Counter (token_list (map Directors rows))))
  = len (token_list (map Directors rows)) /\
  sumZ (map snd (Counter (token_list (map Genres rows))))
  = len (token_list (map Genres rows)).
Proof.
  split; [|split; [|split]].
  - intros e e'. apply most_common_dominates.
  - intros e e'. apply most_common_dominates.
  - apply Counter_sum.
  - apply Counter_sum.
Qed.

Lemma top_tokens_most_frequent_witness : snd ("p", 1) <= snd ("a", 1).
Proof.
  destruct (top_tokens_most_frequent
              (map (load_row Sample.clock) Sample.sixteen_genres))
    as (_ & H & _).
  apply (H ("a", 1) ("p", 1)).
  - left; reflexivity.
  - vm_compute. tauto.
  - vm_compute. intros K.
    repeat (destruct K as [K|K]; [discriminate|]). exact K.
Defined.

(** ** The mean rating *)

Lemma sumQ_inject (xs : list Z) :
  (sumQ (map inject_Z xs) == inject_Z (sumZ xs))%Q.
Proof.
  induction xs as [|x xs IH]; simpl; [reflexivity|].
  rewrite IH, inject_Z_plus. reflexivity.
Qed.

Lemma sumZ_bounds (lo hi : Z) (xs : list Z) :
  (forall x, In x xs -> lo <= x <= hi) ->
  lo * len xs <= sumZ xs <= hi * len xs.
Proof.
  induction xs as [|x xs IH]; intros H.
  - unfold len. simpl. lia.
  - rewrite len_cons. change (sumZ (x :: xs)) with (x + sumZ xs).
    pose proof (H x (or_introl eq_refl)) as Hx.
    assert (lo * len xs <= sumZ xs <= hi * len xs)
      by (apply IH; intros; apply H; now right).
    rewrite !Z.mul_add_distr_l. lia.
Qed.

Lemma mean_bounds (lo hi : Z) (xs : list Z) :
  xs <> [] -> (forall x, In x xs -> lo <= x <= hi) ->
  exists q, mean xs = rat q /\ (inject_Z lo <= q <= inject_Z hi)%Q.
Proof.
  intros Hne H. unfold mean, meanQ.
  destruct (map inject_Z xs) as [|y ys] eqn:E;
    [destruct xs; [congruence|discriminate]|].
  rewrite <- E. eexists. split; [reflexivity|].
  assert (len (map inject_Z xs) = len xs) as ->
      by (unfold len; now rewrite length_map).
  assert (0 < len xs) as Hpos.
  { destruct xs; [congruence|]. rewrite len_cons.
    pose proof (len_nonneg xs). lia. }
  assert (0 < inject_Z (len xs))%Q as Hq by (unfold Qlt; simpl; lia).
  pose proof (sumZ_bounds lo hi xs H) as [B1 B2].
  rewrite Qred_correct, sumQ_inject. split.
  - apply Qle_shift_div_l; [exact Hq|].
    rewrite <- inject_Z_mult, <- Zle_Qle. exact B1.
  - apply Qle_shift_div_r; [exact Hq|].
    rewrite <- inject_Z_mult, <- Zle_Qle. exact B2.
Qed.

(** X21: the mean rating of [basic_statistics] lies within the scale of the
    ratings: when every rating of the frame is between two bounds, so is the
    mean, and it is a number, not [nan]. *)
Theorem avg_rating_within_scale (self : IMDbAnalyzer) (rows : list row)
  (st : stats) (self' : IMDbAnalyzer) (lo hi : Z) :
  df self = Some rows ->
  basic_statistics self = Ok (st, self') ->
  (forall r, In r rows -> lo <= Your_Rating r <= hi) ->
  exists q, avg_rating st = rat q /\ (inject_Z lo <= q <= inject_Z hi)%Q.
Proof.
  intros Hdf H Hb.
  destruct (basic_statistics_inv _ _ _ _ Hdf H) as (_ & Hne & -> & _).
  apply mean_bounds.
  - destruct rows; [congruence|discriminate].
  - intros x (r & <- & Hr)%in_map_iff. auto.
Qed.

Lemma avg_rating_within_scale_witness :
  exists q,
    mean (map Your_Rating (map (load_row Sample.clock) Sample.five_nolan))
    = rat q /\ (inject_Z 1 <= q <= inject_Z 10)%Q.
Proof.
  destruct (avg_rating_within_scale
              (Sample.loaded Sample.five_nolan Sample.clock) _ _ _ 1 10
              eq_refl eq_refl) as (q & H1 & H2).
  - intros r [<-|[<-|[<-|[<-|[<-|[]]]]]]; simpl; lia.
  - exists q. split; [exact H1|exact H2].
Defined.

(** ** Failures of the pattern search *)

Lemma mapM_raises {A B} (f : A -> result B) (e : exn) (xs : list A) (x : A) :
  (forall y, In y xs -> (exists b, f y = Ok b) \/ f y = Raise e) ->
  In x xs -> f x = Raise e -> mapM f xs = Raise e.
Proof.
  induction xs as [|a xs IH]; intros Hall Hin Hx; [destruct Hin|].
  simpl. destruct (Hall a (or_introl eq_refl)) as [(b & Ea)|Ea];
    rewrite Ea; simpl rbind; [|reflexivity].
  destruct Hin as [->|Hin]; [congruence|].
  rewrite IH; [reflexivity| |exact Hin|exact Hx].
  intros y Hy. apply Hall. now right.
Qed.

(** X22: a genre token among the ranked ones that holds a metacharacter and
    does not compile as a regular expression (["Sci(Fi"], say) makes
    [analyze_genres] raise [re.error]. *)
Theorem uncompilable_genre_raises {engine : Re.Engine} (self : IMDbAnalyzer)
  (rows : list row) (t : string) (c : Z) :
  df self = Some rows ->
  In (t, c) (top_genres rows) -> t <> "" ->
  Re.supported t = false -> Re.compiles t = false ->
  analyze_genres self = Raise ReError.
Proof.
  intros Hdf Hin Hne Hs Hc. unfold analyze_genres, get_df.
  rewrite Hdf. simpl rbind.
  assert (genre_lines rows = Raise ReError) as ->; [|reflexivity].
  unfold genre_lines.
  apply (mapM_raises _ _ _ (t, c)).
  - intros [u k] Hu. apply filter_In in Hu as [Hu _].
    destruct (ranked_genre_listed _ _ _ Hu) as (r & Hr & _).
    unfold genre_entry, select_contains.
    destruct (Re.supported u || Re.compiles u); [left|now right].
    simpl rbind. destruct (percent_Ok k (len rows)) as (q & ->).
    + intros E. apply len_zero in E. now subst.
    + simpl. eauto.
  - apply filter_In. split; [exact Hin|].
    unfold genre_guard. simpl. now apply truthy_nonempty.
  - unfold genre_entry, select_contains. now rewrite Hs, Hc.
Qed.

Lemma uncompilable_genre_raises_witness :
  analyze_genres (Sample.loaded Sample.open_paren Sample.clock)
  = Raise ReError.
Proof.
  apply (uncompilable_genre_raises
           (Sample.loaded Sample.open_paren Sample.clock)
           (map (load_row Sample.clock) Sample.open_paren) "Sci(Fi" 1).
  - reflexivity.
  - left. reflexivity.
  - discriminate.
  - reflexivity.
  - reflexivity.
Defined.

(** X23: on a frame with records of which none has a genres cell, the
    genres column holds no string and [create_visualizations] raises
    [AttributeError] at its [.str] accessor, whatever the rollup holds. *)
Theorem charts_need_a_genres_cell {engine : Re.Engine} (self : IMDbAnalyzer)
  (rows : list row) (ys : list yearly_row) :
  df self = Some rows -> rows <> [] ->
  yearly_stats self = Some ys ->
  (forall r, In r rows -> Genres r = None) ->
  create_visualizations self = Raise AttributeError.
Proof.
  intros Hdf Hne Hys Hg. unfold create_visualizations, get_df.
  rewrite Hys, Hdf. simpl rbind. unfold watchlist. cbn [mapM].
  assert (forall g, genre_by_year rows g = Raise AttributeError) as ->;
    [|reflexivity].
  intros g. unfold genre_by_year.
  destruct (sorted_unique (map Rating_Year rows)) as [|y years] eqn:E.
  - destruct rows as [|r rows']; [congruence|].
    assert (In (Rating_Year r) (sorted_unique (map Rating_Year (r :: rows'))))
      as I by (apply sorted_unique_In; now left).
    rewrite E in I. destruct I.
  - cbn [mapM]. now rewrite (str_accessor_raises _ _ Hg).
Qed.

Lemma charts_need_a_genres_cell_witness :
  create_visualizations
    (mkanalyzer (Some (map (load_row Sample.clock) Sample.partly_rated))
       None
       (Some (yearly_table (map (load_row Sample.clock) Sample.partly_rated)))
       None)
  = Raise AttributeError.
Proof.
  apply (charts_need_a_genres_cell _
           (map (load_row Sample.clock) Sample.partly_rated)
           (yearly_table (map (load_row Sample.clock) Sample.partly_rated))).
  - reflexivity.
  - discriminate.
  - reflexivity.
  - intros r [<-|[<-|[<-|[<-|[]]]]]; reflexivity.
Defined.
